(** * Kumo component-registry generator and styles build: a shallow embedding

    The development follows the component-registry generator script (schema
    conversion, variant enrichment, union merge, fallback, caching,
    batching, assembly) and the styles build script.  External collaborators (the TypeScript schema
    generator, the file system, the metadata tables, the host's
    [decodeURIComponent] and [localeCompare]) are the fields of one
    environment record. *)

From Stdlib Require Import String Ascii List Bool Arith ZArith Lia ZifyNat.
From Stdlib Require Import Permutation Sorted.
From Stdlib Require Import RelationClasses.
From Stdlib Require OrdersEx.
From Equations Require Import Equations.
Import ListNotations.
Set Warnings "-register-all".
Local Open Scope string_scope.
Local Open Scope list_scope.

(** ** Outcomes of JavaScript computations *)

(** A call returns a value, throws an error value, or never returns. *)
Inductive result (A : Type) : Type :=
| Ok (a : A)
| Throw (e : string)
| Diverge.
Arguments Ok {A} a.
Arguments Throw {A} e.
Arguments Diverge {A}.

Definition bind {A B} (m : result A) (k : A -> result B) : result B :=
  match m with
  | Ok a => k a
  | Throw e => Throw e
  | Diverge => Diverge
  end.

Declare Scope js_scope.
Delimit Scope js_scope with js.
Notation "x <- m ;; k" := (bind m (fun x => k))
  (at level 61, m at next level, right associativity) : js_scope.
Notation "' p <- m ;; k" := (bind m (fun p => k))
  (at level 61, p pattern, m at next level, right associativity) : js_scope.
Local Open Scope js_scope.

(** [try { body } catch (error) { handler(error) }] *)
Definition try_catch {A} (body : result A) (handler : string -> result A) : result A :=
  match body with
  | Ok a => Ok a
  | Throw e => handler e
  | Diverge => Diverge
  end.

Fixpoint mapM {A B} (f : A -> result B) (l : list A) : result (list B) :=
  match l with
  | [] => Ok []
  | a :: l' => b <- f a ;; bs <- mapM f l' ;; Ok (b :: bs)
  end.

(** ** JavaScript objects used as string-keyed maps

    An object is the list of its own enumerable entries in enumeration order
    (the order of [Object.keys] / [Object.entries]).  Keys are the names of
    props, variants and components; array-index keys, which JavaScript
    enumerates before the others, do not occur among them and are not
    modelled apart. *)
Definition obj (V : Type) : Type := list (string * V).

Fixpoint obj_get {V} (k : string) (o : obj V) : option V :=
  match o with
  | [] => None
  | (k', v) :: o' => if String.eqb k k' then Some v else obj_get k o'
  end.

(** [k in o] for own keys. *)
Definition obj_has {V} (k : string) (o : obj V) : bool :=
  match obj_get k o with Some _ => true | None => false end.

(** [o[k] = v]: an existing key keeps its place, a new key goes last. *)
Fixpoint obj_set {V} (k : string) (v : V) (o : obj V) : obj V :=
  match o with
  | [] => [(k, v)]
  | (k', v') :: o' =>
      if String.eqb k k' then (k, v) :: o' else (k', v') :: obj_set k v o'
  end.

Definition obj_keys {V} (o : obj V) : list string := map fst o.

(** [{ ...a, ...b }] *)
Definition obj_spread {V} (a b : obj V) : obj V :=
  fold_left (fun acc kv => obj_set (fst kv) (snd kv) acc) b a.

(** [xs.includes(x)] on string arrays. *)
Definition includes (xs : list string) (x : string) : bool :=
  existsb (String.eqb x) xs.

(** ** Strings *)

(** Truthiness of a string: only the empty string is falsy. *)
Definition truthy (s : string) : bool := negb (String.eqb s "").

(** Truthiness of an optional string ([undefined] is falsy). *)
Definition truthy_opt (s : option string) : bool :=
  match s with Some s => truthy s | None => false end.

(** [s.includes(t)] on strings. *)
Fixpoint str_includes (t s : string) : bool :=
  if String.prefix t s then true
  else match s with
       | EmptyString => false
       | String _ s' => str_includes t s'
       end.

(** [s.split("/").pop()]: what follows the last slash. *)
Fixpoint lastSegment_from (acc s : string) : string :=
  match s with
  | EmptyString => acc
  | String c s' =>
      if Ascii.eqb c "/"%char then lastSegment_from "" s'
      else lastSegment_from (acc ++ String c "") s'
  end.
Definition lastSegment (s : string) : string := lastSegment_from "" s.

(** [x || d] on strings. *)
Definition str_or (s d : string) : string := if truthy s then s else d.

(** [join(a, b)] of node:path, on paths that need no normalisation. *)
Definition join (a b : string) : string := a ++ "/" ++ b.

(** ** JSON Schema definitions, as ts-json-schema-generator emits them *)

Inductive JsonType : Type :=
| TypeName (t : string)
| TypeNames (ts : list string).

(** [d_items] is [None] also when [items] is not a single schema (a tuple or
    a boolean): [jsonSchemaTypeToString] finds none of the fields it looks
    at on such a value and answers "unknown" like for an absent one. *)
Inductive SchemaDef : Type := mkDef {
  d_ref : option string;
  d_enum : option (list string);
  d_type : option JsonType;
  d_items : option SchemaDef;
  d_anyOf : option (list SchemaDef);
  d_oneOf : option (list SchemaDef);
  d_allOf : option (list SchemaDef);
  d_properties : option (list (string * SchemaDef));
  d_required : option (list string);
  d_description : option string
}.

Definition emptyDef : SchemaDef :=
  mkDef None None None None None None None None None None.

Record Schema : Type := mkSchema {
  s_definitions : option (obj SchemaDef)
}.

(** [schema.definitions?.[name]] *)
Definition lookupDef (defs : option (obj SchemaDef)) (name : string) : option SchemaDef :=
  match defs with
  | Some ds => obj_get name ds
  | None => None
  end.

(** ** Data model of the generator (its types module) *)

Record CLIFlags : Type := mkFlags {
  includeInheritedProps : bool;
  noCache : bool;
  verbose : bool
}.

(** One option of a variant table, e.g. [sm: { classes, description }]. *)
Record VariantOption : Type := mkOption {
  vo_description : option string;
  vo_classes : option string;
  vo_stateClasses : option (obj string)
}.

Record PropSchema : Type := mkProp {
  p_type : string;
  p_required : option bool;
  p_optional : option bool;
  p_description : option string;
  p_values : option (list string);
  p_descriptions : option (obj string);
  p_classes : option (obj string);
  p_stateClasses : option (obj (obj string));
  p_default : option string
}.

(** [{ type: t }] *)
Definition propOfType (t : string) : PropSchema :=
  mkProp t None None None None None None None None.

Definition set_type (t : string) (p : PropSchema) : PropSchema :=
  mkProp t (p_required p) (p_optional p) (p_description p) (p_values p)
         (p_descriptions p) (p_classes p) (p_stateClasses p) (p_default p).
Definition set_required (p : PropSchema) : PropSchema :=
  mkProp (p_type p) (Some true) (p_optional p) (p_description p) (p_values p)
         (p_descriptions p) (p_classes p) (p_stateClasses p) (p_default p).
Definition set_optional (p : PropSchema) : PropSchema :=
  mkProp (p_type p) (p_required p) (Some true) (p_description p) (p_values p)
         (p_descriptions p) (p_classes p) (p_stateClasses p) (p_default p).
Definition set_description (d : string) (p : PropSchema) : PropSchema :=
  mkProp (p_type p) (p_required p) (p_optional p) (Some d) (p_values p)
         (p_descriptions p) (p_classes p) (p_stateClasses p) (p_default p).
Definition set_values (vs : list string) (p : PropSchema) : PropSchema :=
  mkProp (p_type p) (p_required p) (p_optional p) (p_description p) (Some vs)
         (p_descriptions p) (p_classes p) (p_stateClasses p) (p_default p).
Definition set_descriptions (m : obj string) (p : PropSchema) : PropSchema :=
  mkProp (p_type p) (p_required p) (p_optional p) (p_description p) (p_values p)
         (Some m) (p_classes p) (p_stateClasses p) (p_default p).
Definition set_classes (m : obj string) (p : PropSchema) : PropSchema :=
  mkProp (p_type p) (p_required p) (p_optional p) (p_description p) (p_values p)
         (p_descriptions p) (Some m) (p_stateClasses p) (p_default p).
Definition set_stateClasses (m : obj (obj string)) (p : PropSchema) : PropSchema :=
  mkProp (p_type p) (p_required p) (p_optional p) (p_description p) (p_values p)
         (p_descriptions p) (p_classes p) (Some m) (p_default p).
Definition set_default (d : string) (p : PropSchema) : PropSchema :=
  mkProp (p_type p) (p_required p) (p_optional p) (p_description p) (p_values p)
         (p_descriptions p) (p_classes p) (p_stateClasses p) (Some d).

(** Opaque JSON payloads (styling metadata is carried, never inspected). *)
Inductive Json : Type :=
| JNull
| JBool (b : bool)
| JNum (z : Z)
| JStr (s : string)
| JArr (l : list Json)
| JObj (l : list (string * Json)).

Definition json_truthy (j : Json) : bool :=
  match j with
  | JNull => false
  | JBool b => b
  | JNum z => negb (Z.eqb z 0)
  | JStr s => truthy s
  | JArr _ | JObj _ => true
  end.

Record ComponentConfig : Type := mkConfig {
  cfg_name : string;
  cfg_type : string;
  cfg_description : string;
  cfg_category : string;
  cfg_sourceDir : string;
  cfg_sourceFile : string;
  cfg_dirName : string;
  cfg_propsType : option string;
  cfg_variants : obj (obj VariantOption);
  cfg_defaults : obj string;
  cfg_examples : option (list string);
  cfg_styling : option Json;
  cfg_baseStyles : option string
}.

Record SubComponentConfig : Type := mkSubConfig {
  sc_name : string;
  sc_description : option string;
  sc_isPassThrough : bool;
  sc_baseComponent : option string
}.

Record PassthroughDoc : Type := mkPassthroughDoc {
  pd_description : string;
  pd_props : obj PropSchema;
  pd_usageExamples : option (list string);
  pd_renderElement : option string
}.

Record SubComponentSchema : Type := mkSubSchema {
  ss_name : string;
  ss_description : option string;
  ss_props : obj PropSchema;
  ss_isPassThrough : option bool;
  ss_baseComponent : option string;
  ss_usageExamples : option (list string);
  ss_renderElement : option string
}.

Record ComponentSchema : Type := mkSchemaOf {
  cs_name : string;
  cs_type : string;
  cs_description : string;
  cs_importPath : string;
  cs_category : string;
  cs_props : obj PropSchema;
  cs_examples : list string;
  cs_colors : list string;
  cs_baseStyles : option string;
  cs_subComponents : option (obj SubComponentSchema);
  cs_styling : option Json
}.

Record BlockSchema : Type := mkBlock {
  b_schema : ComponentSchema;
  b_files : list string;
  b_dependencies : list string
}.

Record CacheEntry : Type := mkEntry {
  ce_componentName : string;
  ce_sourceHash : string;
  ce_storyHash : string;
  ce_cacheVersion : Z;
  ce_generatedAt : Z;
  ce_metadata : ComponentSchema
}.

Record CacheFile : Type := mkCache {
  cache_version : Z;
  cache_entries : obj CacheEntry
}.

Record ProcessComponentResult : Type := mkResult {
  r_name : string;
  r_category : string;
  r_schema : ComponentSchema;
  r_colors : list string;
  r_cached : bool;
  r_cacheEntry : CacheEntry
}.

Record Demo : Type := mkDemo {
  demo_name : string;
  demo_code : string
}.

Record SearchByType : Type := mkByType {
  component : list string;
  block : list string
}.

Record Search : Type := mkSearch {
  byCategory : obj (list string);
  byName : list string;
  byType : SearchByType
}.

Record Registry : Type := mkRegistry {
  version : string;
  components : obj ComponentSchema;
  blocks : obj BlockSchema;
  search : Search
}.

(** The registry and the colours, as returned, and the cache file handed to
    [saveCache]. *)
Record GenerateRegistryResult : Type := mkGenerated {
  registry : Registry;
  componentColors : obj (list string);
  savedCache : CacheFile
}.

(** ** The environment: everything the two scripts import or read *)

Record Env : Type := mkEnv {
  (* the host *)
  decodeURIComponent : string -> result string;
  localeCompare : string -> string -> Z;
  Date_now : Z;
  CLI_FLAGS : CLIFlags;
  rootDir : string;
  (* ts-json-schema-generator: createGenerator(config).createSchema(type) *)
  createSchema : string -> string -> result Schema;
  (* the modules props-filter, utils, sub-components, discovery *)
  shouldSkipProp : string -> CLIFlags -> bool;
  toScreamingSnakeCase : string -> string;
  extractSemanticColors : string -> list string;
  extractBlockDependencies : string -> list string;
  getBlockFiles : string -> string -> list string;
  detectSubComponents : string -> list SubComponentConfig;
  extractSubComponentProps : string -> SubComponentConfig -> CLIFlags -> obj PropSchema;
  discoverComponents : list ComponentConfig;
  discoverBlocks : list ComponentConfig;
  (* the cache module: the files' hashes and the cache file as loaded *)
  CACHE_VERSION : Z;
  hashFileContent : string -> string;
  loadCache : CacheFile;
  (* the metadata module *)
  PASSTHROUGH_COMPONENT_DOCS : obj PassthroughDoc;
  ADDITIONAL_COMPONENT_PROPS : obj (obj PropSchema);
  PROP_TYPE_OVERRIDES : obj (obj string);
  COMPONENT_STYLING_METADATA : obj Json;
  (* kumo-docs-astro/dist/demo-metadata.json: absent, or its parsed
     components table (JSON.parse throws on a corrupt file) *)
  demoMetadata : option (result (obj (list Demo)))
}.

Section Generator.

Variable E : Env.

(** ** JSON Schema type conversion *)

Definition isReactType (refName : string) : bool :=
  str_includes "ReactNode" refName || str_includes "ReactElement" refName.

Definition notUndefinedOrNull (t : string) : bool :=
  negb (String.eqb t "undefined") && negb (String.eqb t "null").

(** [def.anyOf || def.oneOf]: an array is truthy even when empty. *)
Definition firstSome {A} (a b : option A) : option A :=
  match a with Some _ => a | None => b end.

Definition isArrayType (t : option JsonType) : bool :=
  match t with
  | Some (TypeName "array") => true
  | _ => false
  end.

Fixpoint jsonSchemaTypeToString (def : SchemaDef) : result string :=
  match def with
  | mkDef ref enum type items anyOf oneOf _ _ _ _ =>
      if truthy_opt ref then
        refName <- decodeURIComponent E
                     (str_or (lastSegment (match ref with Some r => r | None => "" end)) "unknown") ;;
        if isReactType refName then Ok "ReactNode" else Ok refName
      else if (match enum with Some _ => true | None => false end) then Ok "enum"
      else if isArrayType type then
        itemType <- match items with
                    | Some i => jsonSchemaTypeToString i
                    | None => Ok "unknown"
                    end ;;
        Ok (itemType ++ "[]")%string
      else
        match firstSome anyOf oneOf with
        | Some types =>
            typeStrings <-
              (fix each (ts : list SchemaDef) : result (list string) :=
                 match ts with
                 | [] => Ok []
                 | t :: ts' =>
                     s <- jsonSchemaTypeToString t ;;
                     ss <- each ts' ;;
                     Ok (s :: ss)
                 end) types ;;
            let typeStrings := filter notUndefinedOrNull typeStrings in
            if existsb (str_includes "React") typeStrings then Ok "ReactNode"
            else Ok (String.concat " | " typeStrings)
        | None =>
            match type with
            | Some (TypeNames ts) => Ok (String.concat " | " ts)
            | Some (TypeName t) => if truthy t then Ok t else Ok "unknown"
            | None => Ok "unknown"
            end
        end
  end.

(** Resolve a $ref to its definition; the definition itself if there is no
    $ref, no definitions table, or no such entry. *)
Definition resolveRef (def : SchemaDef) (allDefinitions : option (obj SchemaDef))
  : result SchemaDef :=
  match allDefinitions with
  | Some defs =>
      if truthy_opt (d_ref def) then
        refName <- decodeURIComponent E
                     (str_or (lastSegment (match d_ref def with Some r => r | None => "" end)) "") ;;
        match obj_get refName defs with
        | Some resolved => Ok resolved
        | None => Ok def
        end
      else Ok def
  | None => Ok def
  end.

(** The three maps the enrichment loop fills from a variant table. *)
Record VariantMaps : Type := mkMaps {
  vm_descriptions : obj string;
  vm_classes : obj string;
  vm_stateClasses : obj (obj string)
}.

Definition collectVariantEntry (acc : VariantMaps) (entry : string * VariantOption)
  : VariantMaps :=
  let '(key, val) := entry in
  let descriptions :=
    match vo_description val with
    | Some d => if truthy d then obj_set key d (vm_descriptions acc) else vm_descriptions acc
    | None => vm_descriptions acc
    end in
  let classes :=
    match vo_classes val with
    | Some c => if truthy c then obj_set key c (vm_classes acc) else vm_classes acc
    | None => vm_classes acc
    end in
  let stateClassesMap :=
    match vo_stateClasses val with
    | Some sc => obj_set key sc (vm_stateClasses acc)
    | None => vm_stateClasses acc
    end in
  mkMaps descriptions classes stateClassesMap.

Definition collectVariantMaps (variantDef : obj VariantOption) : VariantMaps :=
  fold_left collectVariantEntry variantDef (mkMaps [] [] []).

(** [Object.keys(m).length > 0] *)
Definition nonEmpty {V} (m : obj V) : bool :=
  match m with [] => false | _ :: _ => true end.

(** Lines 237-268: enrichment of a prop that is a variant. *)
Definition enrichWithVariant (variantDef : obj VariantOption) (prop : PropSchema)
  : PropSchema :=
  let prop := set_values (obj_keys variantDef) prop in
  let prop := set_type "enum" prop in
  let maps := collectVariantMaps variantDef in
  let prop := if nonEmpty (vm_descriptions maps)
              then set_descriptions (vm_descriptions maps) prop else prop in
  let prop := if nonEmpty (vm_classes maps)
              then set_classes (vm_classes maps) prop else prop in
  let prop := if nonEmpty (vm_stateClasses maps)
              then set_stateClasses (vm_stateClasses maps) prop else prop in
  prop.

Definition convertToPropSchema
  (propName : string) (def : SchemaDef) (required : bool)
  (variants : option (obj (obj VariantOption)))
  (defaults : option (obj string))
  (allDefinitions : option (obj SchemaDef)) : result PropSchema :=
  resolvedDef <- resolveRef def allDefinitions ;;
  type <- jsonSchemaTypeToString def ;;
  let prop := propOfType type in
  let prop := if required then set_required prop else set_optional prop in
  let prop := if truthy_opt (d_description def)
              then set_description (match d_description def with Some d => d | None => "" end) prop
              else prop in
  let prop :=
    match d_enum def with
    | Some vs => set_type "enum" (set_values vs prop)
    | None =>
        match d_enum resolvedDef with
        | Some vs => set_type "enum" (set_values vs prop)
        | None => prop
        end
    end in
  let prop :=
    match variants with
    | Some vs =>
        match obj_get propName vs with
        | Some variantDef => enrichWithVariant variantDef prop
        | None => prop
        end
    | None => prop
    end in
  let prop :=
    match defaults with
    | Some ds =>
        match obj_get propName ds with
        | Some d => set_default d prop
        | None => prop
        end
    | None => prop
    end in
  Ok prop.

(** ** Props generation from TypeScript types *)

(** Derive propsType from component name. *)
Definition getPropsType (config : ComponentConfig) : string :=
  match cfg_propsType config with
  | Some t => t
  | None => (cfg_name config ++ "Props")%string
  end.

(** Derive sourceFile from component config. *)
Definition getSourceFile (config : ComponentConfig) : string :=
  cfg_sourceFile config.

(** What [collectFromParts] returns. *)
Record Collected : Type := mkCollected {
  c_properties : obj SchemaDef;
  c_required : list string
}.

Definition isSome {A} (o : option A) : bool :=
  match o with Some _ => true | None => false end.

(** The loop that follows a chain of bare $ref aliases from the main
    definition.  Every step lands on an entry of the definitions table, so a
    chain longer than the table has come back to an entry it has left
    before and the loop never ends: [fuel] is the size of the table. *)
Fixpoint followRefs (fuel : nat) (defs : option (obj SchemaDef)) (mainDef : SchemaDef)
  : result SchemaDef :=
  if truthy_opt (d_ref mainDef)
     && negb (isSome (d_properties mainDef))
     && negb (isSome (d_allOf mainDef))
     && negb (isSome (d_anyOf mainDef))
     && negb (isSome (d_oneOf mainDef))
  then
    match fuel with
    | O => Diverge
    | S fuel' =>
        refName <- decodeURIComponent E
                     (lastSegment (match d_ref mainDef with Some r => r | None => "" end)) ;;
        match lookupDef defs refName with
        | None => Ok mainDef
        | Some refDef => followRefs fuel' defs refDef
        end
    end
  else Ok mainDef.

Definition RangeError : string := "RangeError: Maximum call stack size exceeded".

(** Helper: collect properties and required fields from a schema part.
    The recursion goes through the definitions table; [depth] bounds the
    nesting of calls, and a nesting deeper than the table is large revisits
    an entry, which on the engine ends in a RangeError. *)
Fixpoint collectFromParts (depth : nat) (defs : option (obj SchemaDef))
  (parts : list SchemaDef) : result Collected :=
  match depth with
  | O => Throw RangeError
  | S depth' =>
      (fix each (parts : list SchemaDef) (properties : obj SchemaDef)
           (required : list string) : result Collected :=
         match parts with
         | [] => Ok (mkCollected properties required)
         | part :: rest =>
             if truthy_opt (d_ref part) then
               refName <- decodeURIComponent E
                            (lastSegment (match d_ref part with Some r => r | None => "" end)) ;;
               let refDef := lookupDef defs refName in
               let properties :=
                 match refDef with
                 | Some (mkDef _ _ _ _ _ _ _ (Some ps) _ _) => obj_spread properties ps
                 | _ => properties
                 end in
               let required :=
                 match refDef with
                 | Some (mkDef _ _ _ _ _ _ _ _ (Some rs) _) => required ++ rs
                 | _ => required
                 end in
               match refDef with
               | Some (mkDef _ _ _ _ _ _ (Some nestedParts) _ _ _) =>
                   nested <- collectFromParts depth' defs nestedParts ;;
                   each rest (obj_spread properties (c_properties nested))
                        (required ++ c_required nested)
               | _ => each rest properties required
               end
             else
               match d_properties part with
               | Some ps =>
                   each rest (obj_spread properties ps)
                        (match d_required part with
                         | Some rs => required ++ rs
                         | None => required
                         end)
               | None => each rest properties required
               end
         end) parts [] []
  end.

Definition stackDepth (defs : option (obj SchemaDef)) : nat :=
  S (match defs with Some ds => length ds | None => 0 end).

Definition tableSize (defs : option (obj SchemaDef)) : nat :=
  match defs with Some ds => length ds | None => 0 end.

(** Lines 391-405: the union branch, from the members' collected parts. *)
Definition mergeUnion (memberProps : list Collected) : Collected :=
  let allProperties :=
    fold_left (fun acc mp => obj_spread acc (c_properties mp)) memberProps [] in
  let allPropNames := obj_keys allProperties in
  let allRequired :=
    filter (fun prop => forallb (fun mp => includes (c_required mp) prop) memberProps)
           allPropNames in
  mkCollected allProperties allRequired.

(** Lines 370-409: all properties and required names of the main definition. *)
Definition collectShape (defs : option (obj SchemaDef)) (mainDef : SchemaDef)
  : result Collected :=
  match d_allOf mainDef with
  | Some parts => collectFromParts (stackDepth defs) defs parts
  | None =>
      match firstSome (d_anyOf mainDef) (d_oneOf mainDef) with
      | Some unionMembers =>
          memberProps <- mapM (fun member => collectFromParts (stackDepth defs) defs [member])
                              unionMembers ;;
          Ok (mergeUnion memberProps)
      | None =>
          match d_properties mainDef with
          | Some ps =>
              Ok (mkCollected ps (match d_required mainDef with Some rs => rs | None => [] end))
          | None => Ok (mkCollected [] [])
          end
      end
  end.

(** Lines 411-426: convert each property. *)
Fixpoint convertProps (config : ComponentConfig) (defs : option (obj SchemaDef))
  (allRequired : list string) (entries : obj SchemaDef) (props : obj PropSchema)
  : result (obj PropSchema) :=
  match entries with
  | [] => Ok props
  | (propName, propDef) :: rest =>
      if shouldSkipProp E propName (CLI_FLAGS E) then
        convertProps config defs allRequired rest props
      else
        prop <- convertToPropSchema propName propDef (includes allRequired propName)
                  (Some (cfg_variants config)) (Some (cfg_defaults config)) defs ;;
        convertProps config defs allRequired rest (obj_set propName prop props)
  end.

(** The body of the try block once the generator has produced a schema. *)
Definition propsFromSchema (config : ComponentConfig) (schema : Schema)
  : result (obj PropSchema) :=
  let defs := s_definitions schema in
  match lookupDef defs (getPropsType config) with
  | None => Ok []
  | Some mainDef =>
      mainDef <- followRefs (tableSize defs) defs mainDef ;;
      all <- collectShape defs mainDef ;;
      convertProps config defs (c_required all) (c_properties all) []
  end.

(** The descriptions of a variant table's options, as the fallback collects
    them. *)
Definition collectDescriptions (variantDef : obj VariantOption) : obj string :=
  fold_left
    (fun descriptions kv =>
       match vo_description (snd kv) with
       | Some d => if truthy d then obj_set (fst kv) d descriptions else descriptions
       | None => descriptions
       end)
    variantDef [].

Definition variantOnlyProp (config : ComponentConfig) (propName : string)
  (variantDef : obj VariantOption) : PropSchema :=
  let descriptions := collectDescriptions variantDef in
  mkProp "enum" None None None (Some (obj_keys variantDef))
         (if nonEmpty descriptions then Some descriptions else None)
         None None
         (match obj_get propName (cfg_defaults config) with
          | Some d => if truthy d then Some d else None
          | None => None
          end).

(** Fallback props generation when ts-json-schema-generator fails.
    Extracts props from the KUMO_*_VARIANTS object only. *)
Definition generatePropsFromVariantsOnly (config : ComponentConfig) : obj PropSchema :=
  let props :=
    fold_left
      (fun props kv => obj_set (fst kv) (variantOnlyProp config (fst kv) (snd kv)) props)
      (cfg_variants config) [] in
  let props :=
    obj_set "className"
      (set_description "Additional CSS classes" (propOfType "string")) props in
  let props :=
    obj_set "children"
      (set_description "Child elements" (propOfType "ReactNode")) props in
  props.

Definition tryGenerateProps (config : ComponentConfig) : result (obj PropSchema) :=
  let sourcePath := join (cfg_sourceDir config) (getSourceFile config) in
  schema <- createSchema E sourcePath (getPropsType config) ;;
  propsFromSchema config schema.

Definition generatePropsFromType (config : ComponentConfig) : result (obj PropSchema) :=
  try_catch (tryGenerateProps config)
            (fun error => Ok (generatePropsFromVariantsOnly config)).

(** ** Cache layer (the cache module) *)

(** Modelled from the spec: the cache module is not among the sources; section 4.4
    gives [isValid(entry, sourceHash, storyHash, currentVersion)] as true
    iff the entry's version equals the current one and both stored hashes
    equal the fresh ones. *)
Definition isValid (entry : CacheEntry) (sourceHash storyHash : string)
  (currentVersion : Z) : bool :=
  Z.eqb (ce_cacheVersion entry) currentVersion
  && String.eqb (ce_sourceHash entry) sourceHash
  && String.eqb (ce_storyHash entry) storyHash.

(** Modelled from the spec: the cache module is not among the sources; section 4.4
    has the entry of a component looked up by name and reused when valid,
    and the force mode ([--no-cache]) bypass lookups entirely. *)
Definition getCachedComponent (name sourceHash storyHash : string)
  (cache : CacheFile) (flags : CLIFlags) : option ComponentSchema :=
  if noCache flags then None
  else
    match obj_get name (cache_entries cache) with
    | Some entry =>
        if isValid entry sourceHash storyHash (CACHE_VERSION E)
        then Some (ce_metadata entry)
        else None
    | None => None
    end.

(** Modelled from the spec: the cache module is not among the sources; section 3
    lists the fields of a CacheEntry, created whenever a component is
    processed again. *)
Definition createCacheEntry (name sourceHash storyHash : string)
  (schema : ComponentSchema) : CacheEntry :=
  mkEntry name sourceHash storyHash (CACHE_VERSION E) (Date_now E) schema.

(** ** Process individual component *)

Record ProcessComponentInput : Type := mkInput {
  in_config : ComponentConfig;
  in_variantConstants : obj (list string);
  in_storyExamples : obj (list string);
  in_cache : CacheFile
}.

(** Lines 546-561: inject additional props. *)
Definition injectAdditionalProps (additionalProps : obj PropSchema)
  (props : obj PropSchema) : obj PropSchema :=
  fold_left
    (fun props kv =>
       let '(propName, propSchema) := kv in
       match obj_get propName props with
       | None => obj_set propName propSchema props
       | Some existing =>
           let existing :=
             if truthy (p_type propSchema)
             then set_type (p_type propSchema) existing else existing in
           let existing :=
             match p_description propSchema with
             | Some d => if truthy d then set_description d existing else existing
             | None => existing
             end in
           obj_set propName existing props
       end)
    additionalProps props.

(** Lines 563-571: apply type overrides. *)
Definition applyTypeOverrides (typeOverrides : obj string)
  (props : obj PropSchema) : obj PropSchema :=
  fold_left
    (fun props kv =>
       let '(propName, newType) := kv in
       match obj_get propName props with
       | Some existing => obj_set propName (set_type newType existing) props
       | None => props
       end)
    typeOverrides props.

(** Lines 602-621: the schema of one detected sub-component. *)
Definition subComponentSchema (sourcePath : string) (subComp : SubComponentConfig)
  : SubComponentSchema :=
  let subProps := extractSubComponentProps E sourcePath subComp (CLI_FLAGS E) in
  let passthroughDoc :=
    if sc_isPassThrough subComp && truthy_opt (sc_baseComponent subComp) then
      obj_get (match sc_baseComponent subComp with Some b => b | None => "" end)
              (PASSTHROUGH_COMPONENT_DOCS E)
    else None in
  let description :=
    match passthroughDoc with
    | Some doc => Some (pd_description doc)
    | None => sc_description subComp
    end in
  let subProps :=
    match passthroughDoc with
    | Some doc => pd_props doc
    | None => subProps
    end in
  let usageExamples :=
    match passthroughDoc with
    | Some doc => pd_usageExamples doc
    | None => None
    end in
  let renderElement :=
    match passthroughDoc with
    | Some doc => pd_renderElement doc
    | None => None
    end in
  mkSubSchema (sc_name subComp) description subProps
    (if sc_isPassThrough subComp then Some true else None)
    (if truthy_opt (sc_baseComponent subComp) then sc_baseComponent subComp else None)
    usageExamples
    (if truthy_opt renderElement then renderElement else None).

Definition storyPathOf (config : ComponentConfig) : string :=
  join (join (cfg_sourceDir config) (cfg_dirName config))
       (cfg_dirName config ++ ".stories.tsx")%string.

(** Lines 537-656: not cached, regenerate. *)
Definition regenerateComponent (input : ProcessComponentInput)
  (sourcePath sourceHash storyHash : string) : result ProcessComponentResult :=
  let config := in_config input in
  props <- generatePropsFromType config ;;
  let props :=
    match obj_get (cfg_name config) (ADDITIONAL_COMPONENT_PROPS E) with
    | Some additionalProps => injectAdditionalProps additionalProps props
    | None => props
    end in
  let props :=
    match obj_get (cfg_name config) (PROP_TYPE_OVERRIDES E) with
    | Some typeOverrides => applyTypeOverrides typeOverrides props
    | None => props
    end in
  let colors := extractSemanticColors E sourcePath in
  let examples :=
    match cfg_examples config with
    | Some examples => examples
    | None =>
        match obj_get (cfg_name config) (in_storyExamples input) with
        | Some aiExamples => aiExamples
        | None => []
        end
    end in
  let detectedSubComponents := detectSubComponents E sourcePath in
  let subComponentSchemas :=
    match detectedSubComponents with
    | [] => None
    | _ :: _ =>
        Some (fold_left
                (fun schemas subComp =>
                   obj_set (sc_name subComp) (subComponentSchema sourcePath subComp) schemas)
                detectedSubComponents [])
    end in
  let stylingMetadata :=
    match cfg_styling config with
    | Some JNull | None => obj_get (cfg_name config) (COMPONENT_STYLING_METADATA E)
    | Some s => Some s
    end in
  let schema :=
    mkSchemaOf (cfg_name config) (cfg_type config) (cfg_description config)
      "@cloudflare/kumo" (cfg_category config) props examples colors
      (if truthy_opt (cfg_baseStyles config) then cfg_baseStyles config else None)
      subComponentSchemas
      (match stylingMetadata with
       | Some s => if json_truthy s then Some s else None
       | None => None
       end) in
  Ok (mkResult (cfg_name config) (cfg_category config) schema colors false
        (createCacheEntry (cfg_name config) sourceHash storyHash schema)).

Definition processComponent (input : ProcessComponentInput)
  : result ProcessComponentResult :=
  let config := in_config input in
  let cache := in_cache input in
  let sourcePath := join (cfg_sourceDir config) (getSourceFile config) in
  let storyPath := storyPathOf config in
  let sourceHash := hashFileContent E sourcePath in
  let storyHash := hashFileContent E storyPath in
  let cachedMetadata :=
    getCachedComponent (cfg_name config) sourceHash storyHash cache (CLI_FLAGS E) in
  match cachedMetadata with
  | Some cachedMetadata =>
      let colors := extractSemanticColors E sourcePath in
      Ok (mkResult (cfg_name config) (cfg_category config) cachedMetadata colors true
            (mkEntry (cfg_name config) sourceHash storyHash (CACHE_VERSION E)
               (match obj_get (cfg_name config) (cache_entries cache) with
                | Some entry =>
                    if Z.eqb (ce_generatedAt entry) 0 then Date_now E
                    else ce_generatedAt entry
                | None => Date_now E
                end)
               cachedMetadata))
  | None => regenerateComponent input sourcePath sourceHash storyHash
  end.

(** ** Parallel processing *)

(** What an observer of the orchestrator sees: a unit (numbered by its
    position in the input) is called, its promise settles, and the await on
    a batch's [Promise.all] resumes. *)
Inductive Event : Type :=
| UnitStarted (index : nat)
| UnitSettled (index : nat)
| BatchAwaited (first : nat).

Definition BATCH_SIZE : nat := 8.

(** [configs.slice(i, j)] *)
Definition slice {A} (i j : nat) (l : list A) : list A :=
  firstn (j - i) (skipn i l).

(** [batch.map(config => processComponent(...))]: [processComponent] is an
    async function without an await, so each call runs to its end before
    [map] makes the next one, and leaves a promise that is already
    fulfilled or rejected.  A unit that never returns stops everything. *)
Fixpoint callUnits (variantConstants : obj (list string))
  (storyExamples : obj (list string)) (cache : CacheFile)
  (index : nat) (batch : list ComponentConfig) (trace : list Event)
  : result (list (result ProcessComponentResult) * list Event) :=
  match batch with
  | [] => Ok ([], trace)
  | config :: rest =>
      match processComponent (mkInput config variantConstants storyExamples cache) with
      | Diverge => Diverge
      | settled =>
          ' (promises, trace) <-
             callUnits variantConstants storyExamples cache (S index) rest
                       (trace ++ [UnitStarted index; UnitSettled index]) ;;
          Ok (settled :: promises, trace)
      end
  end.

(** [await Promise.all(promises)] on settled promises: the values in order,
    or the first rejection. *)
Definition Promise_all {A} (promises : list (result A)) : result (list A) :=
  mapM (fun promise => promise) promises.

Equations? batchLoop (variantConstants : obj (list string))
  (storyExamples : obj (list string)) (cache : CacheFile)
  (configs : list ComponentConfig) (i : nat)
  (results : list ProcessComponentResult) (trace : list Event)
  : result (list ProcessComponentResult * list Event)
  by wf (length configs - i) lt :=
batchLoop variantConstants storyExamples cache configs i results trace
  with lt_dec i (length configs) := {
  | left _ =>
      let batch := slice i (i + BATCH_SIZE) configs in
      match callUnits variantConstants storyExamples cache i batch trace with
      | Ok (promises, trace1) =>
          match Promise_all promises with
          | Ok batchResults =>
              batchLoop variantConstants storyExamples cache configs (i + BATCH_SIZE)
                        (results ++ batchResults) (trace1 ++ [BatchAwaited i])
          | Throw e => Throw e
          | Diverge => Diverge
          end
      | Throw e => Throw e
      | Diverge => Diverge
      end
  | right _ => Ok (results, trace)
  }.
Proof.
  unfold BATCH_SIZE. lia.
Qed.

Definition processComponentsInParallel (configs : list ComponentConfig)
  (variantConstants : obj (list string)) (storyExamples : obj (list string))
  (cache : CacheFile) : result (list ProcessComponentResult * list Event) :=
  batchLoop variantConstants storyExamples cache configs 0 [] [].

(** ** Generate registry *)

(** Load demo examples from kumo-docs-astro's generated metadata file. *)
Definition loadDemoExamples : result (obj (list string)) :=
  match demoMetadata E with
  | None => Ok []
  | Some parsed =>
      metadataComponents <- parsed ;;
      Ok (fold_left
            (fun examples kv => obj_set (fst kv) (map demo_code (snd kv)) examples)
            metadataComponents [])
  end.

(** [Array.prototype.sort] with a comparator: the sort is stable, and with a
    consistent comparator every stable sort gives the same array; written
    here as an insertion sort that keeps equal elements in their order. *)
Fixpoint insertByName (r : ProcessComponentResult) (sorted : list ProcessComponentResult)
  : list ProcessComponentResult :=
  match sorted with
  | [] => [r]
  | r' :: rest =>
      if (localeCompare E (r_name r) (r_name r') <=? 0)%Z
      then r :: r' :: rest
      else r' :: insertByName r rest
  end.

Definition sortByName (results : list ProcessComponentResult)
  : list ProcessComponentResult :=
  fold_right insertByName [] results.

(** Lines 706-718: the variant constants map. *)
Definition buildVariantConstants (configs : list ComponentConfig) : obj (list string) :=
  fold_left
    (fun variantConstants config =>
       let constName := ("KUMO_" ++ toScreamingSnakeCase E (cfg_name config) ++ "_VARIANTS")%string in
       fold_left
         (fun variantConstants kv =>
            obj_set (constName ++ "." ++ fst kv)%string (obj_keys (snd kv)) variantConstants)
         (cfg_variants config) variantConstants)
    configs [].

(** The tables the two result loops fill. *)
Record Tables : Type := mkTables {
  t_components : obj ComponentSchema;
  t_blocks : obj BlockSchema;
  t_byCategory : obj (list string);
  t_byType : SearchByType;
  t_componentColors : obj (list string);
  t_newCache : CacheFile
}.

(** [if (!byCategory[c]) byCategory[c] = []; byCategory[c].push(name)] *)
Definition pushCategory (category name : string) (byCategory : obj (list string))
  : obj (list string) :=
  match obj_get category byCategory with
  | Some names => obj_set category (names ++ [name]) byCategory
  | None => obj_set category [name] byCategory
  end.

Definition storeEntry (name : string) (entry : CacheEntry) (cache : CacheFile) : CacheFile :=
  mkCache (cache_version cache) (obj_set name entry (cache_entries cache)).

(** Lines 757-769: one component result. *)
Definition addComponentResult (t : Tables) (res : ProcessComponentResult) : Tables :=
  mkTables
    (obj_set (r_name res) (r_schema res) (t_components t))
    (t_blocks t)
    (pushCategory (r_category res) (r_name res) (t_byCategory t))
    (mkByType (component (t_byType t) ++ [r_name res]) (block (t_byType t)))
    (obj_set (r_name res) (r_colors res) (t_componentColors t))
    (storeEntry (r_name res) (r_cacheEntry res) (t_newCache t)).

Definition asBlock (schema : ComponentSchema) : ComponentSchema :=
  mkSchemaOf (cs_name schema) "block" (cs_description schema) (cs_importPath schema)
    (cs_category schema) (cs_props schema) (cs_examples schema) (cs_colors schema)
    (cs_baseStyles schema) (cs_subComponents schema) (cs_styling schema).

(** Lines 772-796: one block result.  [BLOCKS.find(...)!] on a name that no
    block has gives undefined, and reading its sourceDir throws. *)
Definition addBlockResult (BLOCKS : list ComponentConfig) (t : Tables)
  (res : ProcessComponentResult) : result Tables :=
  match find (fun b => String.eqb (cfg_name b) (r_name res)) BLOCKS with
  | None => Throw "TypeError: Cannot read properties of undefined (reading 'sourceDir')"
  | Some blockConfig =>
      let mainFilePath := join (cfg_sourceDir blockConfig) (cfg_sourceFile blockConfig) in
      let dependencies := extractBlockDependencies E mainFilePath in
      let files := getBlockFiles E (cfg_sourceDir blockConfig) (cfg_dirName blockConfig) in
      Ok (mkTables
            (t_components t)
            (obj_set (r_name res) (mkBlock (asBlock (r_schema res)) files dependencies)
                     (t_blocks t))
            (pushCategory (r_category res) (r_name res) (t_byCategory t))
            (mkByType (component (t_byType t)) (block (t_byType t) ++ [r_name res]))
            (obj_set (r_name res) (r_colors res) (t_componentColors t))
            (storeEntry (r_name res) (r_cacheEntry res) (t_newCache t)))
  end.

Fixpoint addBlockResults (BLOCKS : list ComponentConfig) (t : Tables)
  (results : list ProcessComponentResult) : result Tables :=
  match results with
  | [] => Ok t
  | res :: rest =>
      t <- addBlockResult BLOCKS t res ;;
      addBlockResults BLOCKS t rest
  end.

Definition syntheticInputArea (styling : Json) : ComponentSchema :=
  mkSchemaOf "InputArea" "component"
    "Multi-line textarea input with Input variants and InputArea-specific dimensions"
    "@cloudflare/kumo (synthetic - uses Input component)"
    "Input" [] [] [] None None (Some styling).

(** Lines 801-821: InputArea as a synthetic component. *)
Definition addInputArea (t : Tables) : Tables :=
  match obj_get "InputArea" (COMPONENT_STYLING_METADATA E) with
  | Some styling =>
      if json_truthy styling then
        mkTables
          (obj_set "InputArea" (syntheticInputArea styling) (t_components t))
          (t_blocks t)
          (match obj_get "Input" (t_byCategory t) with
           | Some _ => t_byCategory t
           | None => obj_set "Input" [] (t_byCategory t)
           end)
          (t_byType t) (t_componentColors t) (t_newCache t)
      else t
  | None => t
  end.

Definition generateRegistry : result GenerateRegistryResult :=
  let COMPONENTS := discoverComponents E in
  let BLOCKS := discoverBlocks E in
  let cache := loadCache E in
  let variantConstants := buildVariantConstants (COMPONENTS ++ BLOCKS) in
  storyExamples <- loadDemoExamples ;;
  ' (componentResults, _) <-
     processComponentsInParallel COMPONENTS variantConstants storyExamples cache ;;
  ' (blockResults, _) <-
     processComponentsInParallel BLOCKS variantConstants storyExamples cache ;;
  let allResults := sortByName (componentResults ++ blockResults) in
  let t := mkTables [] [] [] (mkByType [] []) [] (mkCache (CACHE_VERSION E) []) in
  let t := fold_left addComponentResult componentResults t in
  t <- addBlockResults BLOCKS t blockResults ;;
  let newCache := t_newCache t in
  let t := addInputArea t in
  Ok (mkGenerated
        (mkRegistry "1.0.0" (t_components t) (t_blocks t)
           (mkSearch (t_byCategory t) (map r_name allResults) (t_byType t)))
        (t_componentColors t)
        newCache).

End Generator.

(** * The styles build script *)

Module BuildStyles.

(** What the script leaves on the terminal, and the commands it runs (the
    messages without their leading pictograms). *)
Inductive Output : Type :=
| ConsoleLog (text : string)
| ConsoleWarn (text : string)
| ConsoleError (text : string) (error : string)
| Exec (command : string).

(** A statement goes on to the next one, ends the process through
    [process.exit], or throws. *)
Inductive Step (A : Type) : Type :=
| Next (a : A)
| Exit (code : Z)
| Raise (e : string).
Arguments Next {A} a.
Arguments Exit {A} code.
Arguments Raise {A} e.

Definition Script (A : Type) : Type := list Output -> list Output * Step A.

Definition ret {A} (a : A) : Script A := fun out => (out, Next a).

Definition andThen {A B} (m : Script A) (k : A -> Script B) : Script B :=
  fun out =>
    match m out with
    | (out', Next a) => k a out'
    | (out', Exit code) => (out', Exit code)
    | (out', Raise e) => (out', Raise e)
    end.

Declare Scope script_scope.
Delimit Scope script_scope with script.
Notation "x <-- m ;;; k" := (andThen m (fun x => k))
  (at level 61, m at next level, right associativity) : script_scope.
Notation "m ;;; k" := (andThen m (fun _ => k))
  (at level 61, right associativity) : script_scope.
Local Open Scope script_scope.

Definition emit (o : Output) : Script unit := fun out => (out ++ [o], Next tt).

Definition process_exit {A} (code : Z) : Script A := fun out => (out, Exit code).

(** Lift a file-system or subprocess call that returns or throws. *)
Definition call {A} (r : result A) : Script A :=
  fun out =>
    match r with
    | Ok a => (out, Next a)
    | Throw e => (out, Raise e)
    | Diverge => (out, Raise "never returns")
    end.

(** [try { body } catch (error) { handler }]: an exit is not caught. *)
Definition try_ {A} (body : Script A) (handler : string -> Script A) : Script A :=
  fun out =>
    match body out with
    | (out', Raise e) => handler e out'
    | other => other
    end.

Fixpoint forEach {A} (l : list A) (f : A -> Script unit) : Script unit :=
  match l with
  | [] => ret tt
  | a :: l' => f a ;;; forEach l' f
  end.

Fixpoint filterM {A} (f : A -> Script bool) (l : list A) : Script (list A) :=
  match l with
  | [] => ret []
  | a :: l' =>
      keep <-- f a ;;;
      rest <-- filterM f l' ;;;
      ret (if keep then a :: rest else rest)
  end.

Record Stats : Type := mkStats {
  isDirectory : bool;
  isFile : bool
}.

(** The file system and the subprocess the script talks to. *)
Record World : Type := mkWorld {
  dirname : string;
  existsSync : string -> bool;
  mkdirSync : string -> result unit;
  copyFileSync : string -> string -> result unit;
  readdirSync : string -> result (list string);
  statSync : string -> result Stats;
  execSync : string -> result unit
}.

(** [s.endsWith(suffix)] *)
Definition endsWith (suffix s : string) : bool :=
  String.eqb (substring (String.length s - String.length suffix) (String.length suffix) s)
             suffix
  && Nat.leb (String.length suffix) (String.length s).

Section Script.

Variable W : World.

Definition srcDir : string := join (dirname W) "../src/styles".
Definition distDir : string := join (dirname W) "../dist/styles".
Definition blocksSrcDir : string := join (dirname W) "../src/blocks".
Definition blocksDistDir : string := join (dirname W) "../dist/src/blocks".

Definition cssFiles : list string :=
  ["kumo.css"; "kumo-binding.css"; "theme-kumo.css"; "theme-fedramp.css"].

(** Lines 14-37: create dist/styles and copy the raw CSS files. *)
Definition copyCssFiles : Script unit :=
  (if negb (existsSync W distDir) then call (mkdirSync W distDir) else ret tt) ;;;
  forEach cssFiles
    (fun file =>
       let srcPath := join srcDir file in
       let distPath := join distDir file in
       if existsSync W srcPath then
         call (copyFileSync W srcPath distPath) ;;;
         emit (ConsoleLog ("Copied " ++ file ++ " to dist/styles/ (Tailwind version)"))
       else
         emit (ConsoleWarn ("Warning: " ++ file ++ " not found in src/styles/"))).

Definition tailwindCommand : string :=
  "npx tailwindcss -i " ++ join srcDir "kumo-standalone.css"
  ++ " -o " ++ join distDir "kumo-standalone.css" ++ " --minify".

(** Lines 39-55: compile standalone CSS for non-Tailwind users. *)
Definition compileStandalone : Script unit :=
  emit (ConsoleLog "Compiling standalone CSS...") ;;;
  try_
    (emit (Exec tailwindCommand) ;;;
     call (execSync W tailwindCommand) ;;;
     emit (ConsoleLog "Compiled kumo-standalone.css"))
    (fun error =>
       emit (ConsoleError "Failed to compile standalone CSS:" error) ;;;
       process_exit 1).

(** Lines 62-98: copy block source files to dist. *)
Definition copyBlockFiles (srcDir destDir : string) : Script unit :=
  if negb (existsSync W srcDir) then
    emit (ConsoleWarn ("Warning: blocks source directory not found at " ++ srcDir))
  else
    items <-- call (readdirSync W srcDir) ;;;
    blockDirs <-- filterM
                    (fun item =>
                       stats <-- call (statSync W (join srcDir item)) ;;;
                       ret (isDirectory stats))
                    items ;;;
    forEach blockDirs
      (fun blockDir =>
         let blockSrcPath := join srcDir blockDir in
         let blockDestPath := join destDir blockDir in
         (if negb (existsSync W blockDestPath)
          then call (mkdirSync W blockDestPath) else ret tt) ;;;
         files <-- call (readdirSync W blockSrcPath) ;;;
         forEach files
           (fun file =>
              if endsWith ".tsx" file then
                let srcFile := join blockSrcPath file in
                let destFile := join blockDestPath file in
                stats <-- call (statSync W srcFile) ;;;
                if isFile stats then
                  call (copyFileSync W srcFile destFile) ;;;
                  emit (ConsoleLog ("  Copied " ++ blockDir ++ "/" ++ file))
                else ret tt
              else ret tt)).

(** The whole script, top to bottom. *)
Definition buildStyles : Script unit :=
  copyCssFiles ;;;
  compileStandalone ;;;
  emit (ConsoleLog "CSS build complete") ;;;
  emit (ConsoleLog "Copying block source files...") ;;;
  copyBlockFiles blocksSrcDir blocksDistDir ;;;
  emit (ConsoleLog "Block source files copied").

End Script.

(** A checkout in which everything is in place and the Tailwind CLI fails. *)
Definition failingWorld : World :=
  mkWorld "/kumo/packages/kumo/scripts"
          (fun _ => true)
          (fun _ => Ok tt)
          (fun _ _ => Ok tt)
          (fun _ => Ok [])
          (fun _ => Ok (mkStats false true))
          (fun _ => Throw "Error: Command failed: npx tailwindcss").

End BuildStyles.

(** * Vocabulary of the properties *)

(** The two flags of a prop. *)
Definition flagsOf (p : PropSchema) : option bool * option bool :=
  (p_required p, p_optional p).

(** The option defines a description, classes or state classes that the
    enrichment loop takes up: a string field counts when it is not empty. *)
Definition hasDescription (entry : string * VariantOption) : bool :=
  truthy_opt (vo_description (snd entry)).
Definition hasClasses (entry : string * VariantOption) : bool :=
  truthy_opt (vo_classes (snd entry)).
Definition hasStateClasses (entry : string * VariantOption) : bool :=
  isSome (vo_stateClasses (snd entry)).

(** The three optional maps of a prop, and what the enrichment leaves in
    one of them. *)
Definition mapsOf (p : PropSchema)
  : option (obj string) * option (obj string) * option (obj (obj string)) :=
  (p_descriptions p, p_classes p, p_stateClasses p).

Definition attach {V} (m : obj V) (old : option (obj V)) : option (obj V) :=
  if nonEmpty m then Some m else old.

(** What unit [k] of [n] leaves in the trace: its call, its settlement, and,
    when it is the last unit of its batch of eight (or the last of all),
    the resumption of the await on that batch. *)
Definition endsBatch (n k : nat) : bool :=
  Nat.eqb (S k mod BATCH_SIZE) 0 || Nat.eqb (S k) n.

Definition unitEvents (n k : nat) : list Event :=
  [UnitStarted k; UnitSettled k]
  ++ (if endsBatch n k then [BatchAwaited (k - k mod BATCH_SIZE)] else []).

Definition callEvents (k : nat) : list Event := [UnitStarted k; UnitSettled k].

(** The unit for [config] returns [r]. *)
Definition unitOk (E : Env) (variantConstants storyExamples : obj (list string))
  (cache : CacheFile) (config : ComponentConfig) (r : ProcessComponentResult) : Prop :=
  processComponent E (mkInput config variantConstants storyExamples cache) = Ok r.

(** The order of names, and of results by name, that the comparator of the
    sort induces. *)
Definition nameLe (E : Env) (a b : string) : Prop := (localeCompare E a b <= 0)%Z.

Definition resultLe (E : Env) (r r' : ProcessComponentResult) : Prop :=
  nameLe E (r_name r) (r_name r').

(** * Concrete inputs

    A host whose [decodeURIComponent] finds no escape to decode, whose
    string comparison is by code units, and whose schema generator answers
    from a table; components taken from the library's sources and from the
    specification's examples. *)

Module Fixtures.

Definition codeUnitCompare (a b : string) : Z :=
  match OrdersEx.String_as_OT.compare a b with
  | Lt => (-1)%Z
  | Eq => 0%Z
  | Gt => 1%Z
  end.

Definition defaultFlags : CLIFlags := mkFlags false false false.

Definition skipInternal (propName : string) (flags : CLIFlags) : bool :=
  String.eqb propName "key" || String.eqb propName "ref".

Definition fileHash (path : string) : string := ("sha256:" ++ path)%string.

Definition testEnv (schemas : obj Schema) (COMPONENTS BLOCKS : list ComponentConfig)
  (styling : obj Json) (cache : CacheFile) (flags : CLIFlags) : Env :=
  mkEnv (fun s => Ok s) codeUnitCompare 1700000000000%Z flags "/kumo"
        (fun path type =>
           match obj_get type schemas with
           | Some schema => Ok schema
           | None => Throw ("NoRootTypeError: No root type " ++ type ++ " found")%string
           end)
        skipInternal (fun s => s)
        (fun _ => []) (fun _ => []) (fun _ _ => []) (fun _ => []) (fun _ _ _ => [])
        COMPONENTS BLOCKS
        3%Z fileHash cache
        [] [] [] styling
        None.

Definition emptyCache : CacheFile := mkCache 3%Z [].

Definition typed (t : string) : SchemaDef :=
  mkDef None None (Some (TypeName t)) None None None None None None None.

Definition enumOf (values : list string) : SchemaDef :=
  mkDef None (Some values) (Some (TypeName "string")) None None None None None None None.

Definition refTo (name : string) : SchemaDef :=
  mkDef (Some ("#/definitions/" ++ name)%string) None None None None None None None None None.

Definition object (props : obj SchemaDef) (requiredNames : list string) : SchemaDef :=
  mkDef None None (Some (TypeName "object")) None None None None
        (Some props) (Some requiredNames) None.

Definition unionOf (members : list SchemaDef) : SchemaDef :=
  mkDef None None None None (Some members) None None None None None.

Definition componentConfig (name : string) (variants : obj (obj VariantOption))
  (defaults : obj string) : ComponentConfig :=
  mkConfig name "component" (name ++ " component")%string "Other"
           "/kumo/src/components" (name ++ ".tsx")%string name None
           variants defaults None None None.

Definition option_ (classes description : string) : VariantOption :=
  mkOption (Some description) (Some classes) None.

(** The specification's Widget: [{ size?: "sm" | "lg"; label: string }]. *)
Definition widgetVariants : obj (obj VariantOption) :=
  [("size", [("sm", option_ "h-8" "Small"); ("lg", option_ "h-12" "Large")])].
Definition widgetDefaults : obj string := [("size", "sm")].
Definition Widget : ComponentConfig :=
  componentConfig "Widget" widgetVariants widgetDefaults.
Definition widgetProperties : obj SchemaDef :=
  [("size", enumOf ["sm"; "lg"]); ("label", typed "string")].
Definition widgetSchema : Schema :=
  mkSchema (Some [("WidgetProps", object widgetProperties ["label"])]).

(** KUMO_SURFACE_VARIANTS and KUMO_SURFACE_DEFAULT_VARIANTS of
    the Surface component's source. *)
Definition KUMO_SURFACE_VARIANTS : obj (obj VariantOption) :=
  [("color", [("primary", option_ "" "Primary surface color");
              ("secondary", option_ "" "Secondary surface color")])].
Definition KUMO_SURFACE_DEFAULT_VARIANTS : obj string := [("color", "primary")].
Definition Surface : ComponentConfig :=
  componentConfig "Surface" KUMO_SURFACE_VARIANTS KUMO_SURFACE_DEFAULT_VARIANTS.
Definition surfaceSchema : Schema :=
  mkSchema
    (Some [("SurfaceProps",
            object [("as", refTo "ElementType");
                    ("color", refTo "KumoSurfaceColor");
                    ("className", typed "string");
                    ("children", refTo "React.ReactNode")] []);
           ("KumoSurfaceColor", enumOf ["primary"; "secondary"])]).

(** The specification's union: A [{x: required, y: optional}] and
    B [{x: required, z: required}]. *)
Definition shapeA : SchemaDef :=
  object [("x", typed "string"); ("y", typed "number")] ["x"].
Definition shapeB : SchemaDef :=
  object [("x", typed "string"); ("z", typed "boolean")] ["x"; "z"].
Definition choiceSchema : Schema :=
  mkSchema
    (Some [("ChoiceProps", unionOf [refTo "A"; refTo "B"]);
           ("A", shapeA);
           ("B", shapeB)]).
Definition Choice : ComponentConfig := componentConfig "Choice" [] [].

(** A component whose props type the generator cannot find at all (it
    throws), and one for which the generator answers with a schema that has
    no definition under the props type's name. *)
Definition Table : ComponentConfig :=
  componentConfig "Table"
    [("layout", [("auto", option_ "table-auto" "Automatic layout");
                 ("fixed", option_ "table-fixed" "Fixed layout")])]
    [("layout", "auto")].
Definition Badge : ComponentConfig :=
  componentConfig "Badge"
    [("variant", [("primary", option_ "bg-kumo-brand" "Primary badge");
                  ("outline", option_ "border" "Outlined badge")])]
    [("variant", "primary")].
Definition badgeSchema : Schema :=
  mkSchema (Some [("BadgeVariant", enumOf ["primary"; "outline"])]).

Definition schemas : obj Schema :=
  [("WidgetProps", widgetSchema); ("SurfaceProps", surfaceSchema);
   ("ChoiceProps", choiceSchema); ("BadgeProps", badgeSchema)].

Definition plainEnv : Env := testEnv schemas [] [] [] emptyCache defaultFlags.

(** Two components and a block, with styling metadata for InputArea. *)
Definition registryEnv : Env :=
  testEnv schemas [Widget; Choice] [Table] [("InputArea", JObj [("height", JNum 80)])]
          emptyCache defaultFlags.

(** Nine units: one full batch and a second batch of one. *)
Definition nineConfigs : list ComponentConfig :=
  [Widget; Surface; Choice; Table; Badge; Widget; Surface; Choice; Table].

(** What the units of [configs] return, for those that return. *)
Definition resultsOf (E : Env) (configs : list ComponentConfig)
  : list ProcessComponentResult :=
  flat_map
    (fun config =>
       match processComponent E (mkInput config [] [] (loadCache E)) with
       | Ok r => [r]
       | _ => []
       end)
    configs.

Definition nineResults : list ProcessComponentResult :=
  Eval vm_compute in resultsOf plainEnv nineConfigs.
Definition componentResults : list ProcessComponentResult :=
  Eval vm_compute in resultsOf registryEnv (discoverComponents registryEnv).
Definition blockResults : list ProcessComponentResult :=
  Eval vm_compute in resultsOf registryEnv (discoverBlocks registryEnv).

(** A cache that holds Widget's schema under the hashes of its two files. *)
Definition widgetCachedSchema : ComponentSchema :=
  mkSchemaOf "Widget" "component" "Widget component" "@cloudflare/kumo" "Other"
             [("label", set_required (propOfType "string"))] [] [] None None None.
Definition widgetEntry : CacheEntry :=
  mkEntry "Widget" (fileHash "/kumo/src/components/Widget.tsx")
          (fileHash "/kumo/src/components/Widget/Widget.stories.tsx")
          3%Z 1690000000000%Z widgetCachedSchema.
Definition widgetCache : CacheFile := mkCache 3%Z [("Widget", widgetEntry)].
Definition cachedEnv : Env := testEnv schemas [Widget] [] [] widgetCache defaultFlags.

End Fixtures.

(** * Further definitions *)

(** The loop of [collectFromParts] with its two accumulators as arguments:
    [collectFromParts (S depth)] is this loop started on empty ones. *)
Fixpoint collectEach (E : Env) (depth : nat) (defs : option (obj SchemaDef))
  (parts : list SchemaDef) (properties : obj SchemaDef) (required : list string)
  : result Collected :=
  match parts with
  | [] => Ok (mkCollected properties required)
  | part :: rest =>
      if truthy_opt (d_ref part) then
        refName <- decodeURIComponent E
                     (lastSegment (match d_ref part with Some r => r | None => "" end)) ;;
        let refDef := lookupDef defs refName in
        let properties :=
          match refDef with
          | Some (mkDef _ _ _ _ _ _ _ (Some ps) _ _) => obj_spread properties ps
          | _ => properties
          end in
        let required :=
          match refDef with
          | Some (mkDef _ _ _ _ _ _ _ _ (Some rs) _) => required ++ rs
          | _ => required
          end in
        match refDef with
        | Some (mkDef _ _ _ _ _ _ (Some nestedParts) _ _ _) =>
            nested <- collectFromParts E depth defs nestedParts ;;
            collectEach E depth defs rest (obj_spread properties (c_properties nested))
                        (required ++ c_required nested)
        | _ => collectEach E depth defs rest properties required
        end
      else
        match d_properties part with
        | Some ps =>
            collectEach E depth defs rest (obj_spread properties ps)
                        (match d_required part with
                         | Some rs => required ++ rs
                         | None => required
                         end)
        | None => collectEach E depth defs rest properties required
        end
  end.

(** The condition of the loop that follows aliases: a $ref and nothing to
    collect from. *)
Definition isBareAlias (def : SchemaDef) : bool :=
  truthy_opt (d_ref def)
  && negb (isSome (d_properties def))
  && negb (isSome (d_allOf def))
  && negb (isSome (d_anyOf def))
  && negb (isSome (d_oneOf def)).

Module MoreFixtures.

Import Fixtures.

(** An intersection: [CardProps = BaseProps & { title: string; footer?: string }]
    with [BaseProps = { id: string; className?: string }]; and an alias
    chain [PanelProps = PanelBase = { open: boolean }]. *)
Definition intersectionOf (parts : list SchemaDef) : SchemaDef :=
  mkDef None None None None None None (Some parts) None None None.
Definition baseProps : SchemaDef :=
  object [("id", typed "string"); ("className", typed "string")] ["id"].
Definition cardInline : SchemaDef :=
  object [("title", typed "string"); ("footer", typed "string")] ["title"].
Definition cardSchema : Schema :=
  mkSchema
    (Some [("CardProps", intersectionOf [refTo "BaseProps"; cardInline]);
           ("BaseProps", baseProps)]).
Definition Card : ComponentConfig := componentConfig "Card" [] [].

Definition panelSchema : Schema :=
  mkSchema
    (Some [("PanelProps", refTo "PanelBase");
           ("PanelBase", object [("open", typed "boolean")] ["open"])]).
Definition Panel : ComponentConfig := componentConfig "Panel" [] [].

(** A props type that is an alias of itself. *)
Definition loopSchema : Schema :=
  mkSchema (Some [("LoopProps", refTo "LoopProps")]).
Definition Loop : ComponentConfig := componentConfig "Loop" [] [].

Definition moreSchemas : obj Schema :=
  [("CardProps", cardSchema); ("PanelProps", panelSchema); ("LoopProps", loopSchema)].

Definition moreEnv : Env := testEnv moreSchemas [] [] [] emptyCache defaultFlags.

(** A checkout in which a component named InputArea is discovered, with
    styling metadata for InputArea. *)
Definition InputAreaConfig : ComponentConfig := componentConfig "InputArea" [] [].
Definition inputAreaEnv : Env :=
  testEnv moreSchemas [InputAreaConfig; Card] [] [("InputArea", JObj [])]
          emptyCache defaultFlags.
Definition inputAreaResults : list ProcessComponentResult :=
  Eval vm_compute in resultsOf inputAreaEnv (discoverComponents inputAreaEnv).

(** A host whose detector finds two sub-components, one of them a
    pass-through of a documented primitive. *)
Definition tabDoc : PassthroughDoc :=
  mkPassthroughDoc "A tab trigger" [("value", propOfType "string")] None (Some "button").
Definition subEnv : Env :=
  mkEnv (fun s => Ok s) codeUnitCompare 1700000000000%Z defaultFlags "/kumo"
        (fun path type => Throw "NoRootTypeError")
        skipInternal (fun s => s)
        (fun _ => []) (fun _ => []) (fun _ _ => [])
        (fun _ => [mkSubConfig "List" (Some "The list of tabs") false None;
                   mkSubConfig "Tab" None true (Some "Tabs.Tab")])
        (fun _ _ _ => [])
        [] []
        3%Z fileHash emptyCache
        [("Tabs.Tab", tabDoc)] [] [] []
        None.
Definition Tabs : ComponentConfig := componentConfig "Tabs" [] [].

End MoreFixtures.

(** ** CLI flags of the generator *)

(** [parseCLIFlags], on [process.argv]. *)
Definition parseCLIFlags (argv : list string) : CLIFlags :=
  let args := skipn 2 argv in
  mkFlags (includes args "--inherited-props")
          (includes args "--no-cache")
          (includes args "--verbose").

(** ** The colour tokens of the documentation site's virtual module *)

Module KumoColors.

Record ThemeColors : Type := mkThemeColors {
  tc_light : string;
  tc_dark : string
}.

(** A token definition, as far as the plugin reads it: its colours per
    theme. *)
Record TokenDefinition : Type := mkTokenDefinition {
  td_theme : obj ThemeColors
}.

Record ThemeConfig : Type := mkThemeConfig {
  tcfg_text : obj TokenDefinition;
  tcfg_color : obj TokenDefinition
}.

Inductive TokenType : Type := semantic | global | override.

Record ColorToken : Type := mkColorToken {
  ct_name : string;
  ct_light : string;
  ct_dark : string;
  ct_theme : string;
  ct_tokenType : TokenType
}.

(** The body of each of the two loops of [getColorsFromConfig] for one
    token: the base kumo theme, then the overrides of the other themes. *)
Definition tokensOf (AVAILABLE_THEMES : list string) (prefix : string)
  (entry : string * TokenDefinition) : list ColorToken :=
  let '(tokenName, typedDef) := entry in
  (match obj_get "kumo" (td_theme typedDef) with
   | Some kumo =>
       [mkColorToken (prefix ++ tokenName) (tc_light kumo) (tc_dark kumo) "kumo" semantic]
   | None => []
   end)
  ++ flat_map
       (fun themeName =>
          if negb (String.eqb themeName "kumo") then
            match obj_get themeName (td_theme typedDef) with
            | Some themeColors =>
                [mkColorToken (prefix ++ tokenName) (tc_light themeColors)
                              (tc_dark themeColors) themeName override]
            | None => []
            end
          else [])
       AVAILABLE_THEMES.

(** Convert theme config to ColorToken array for the virtual module: the
    text colour tokens, then the colour tokens. *)
Definition getColorsFromConfig (THEME_CONFIG : ThemeConfig)
  (AVAILABLE_THEMES : list string) : list ColorToken :=
  flat_map (tokensOf AVAILABLE_THEMES "--text-color-") (tcfg_text THEME_CONFIG)
  ++ flat_map (tokensOf AVAILABLE_THEMES "--color-") (tcfg_color THEME_CONFIG).

End KumoColors.


(** ** Vocabulary of the further properties *)

(** What the injection of an additional prop leaves of an extracted one:
    everything but its type and description. *)
Definition keepsAllButTypeAndDescription (p p' : PropSchema) : Prop :=
  p_required p' = p_required p /\ p_optional p' = p_optional p /\
  p_values p' = p_values p /\ p_descriptions p' = p_descriptions p /\
  p_classes p' = p_classes p /\ p_stateClasses p' = p_stateClasses p /\
  p_default p' = p_default p.

(** One turn of the injection loop. *)
Definition injectOne (props : obj PropSchema) (kv : string * PropSchema)
  : obj PropSchema :=
  injectAdditionalProps [kv] props.

(** The tables before the first result. *)
Definition emptyTables (E : Env) : Tables :=
  mkTables [] [] [] (mkByType [] []) [] (mkCache (CACHE_VERSION E) []).

(** The names of the results, or configs, of one category, in their order. *)
Definition resultNamesIn (category : string) (rs : list ProcessComponentResult)
  : list string :=
  map r_name (filter (fun r => String.eqb (r_category r) category) rs).

Definition configNamesIn (category : string) (configs : list ComponentConfig)
  : list string :=
  map cfg_name (filter (fun c => String.eqb (cfg_category c) category) configs).

(** The styling table has a (truthy) InputArea entry. *)
Definition inputAreaStyled (E : Env) : bool :=
  match obj_get "InputArea" (COMPONENT_STYLING_METADATA E) with
  | Some styling => json_truthy styling
  | None => false
  end.

(** Appending [names] to the list under a category, creating it if needed. *)
Definition extendCategory (old : option (list string)) (names : list string)
  : option (list string) :=
  match names with
  | [] => old
  | _ :: _ => Some (match old with Some ns => ns ++ names | None => names end)
  end.

(** The cache file after storing the entries of [rs], one after the other. *)
Definition storeResults (rs : list ProcessComponentResult) (cache : CacheFile)
  : CacheFile :=
  fold_left (fun cache r => storeEntry (r_name r) (r_cacheEntry r) cache) rs cache.

(** An output that is a console line, not a command run. *)
Definition isConsole (o : BuildStyles.Output) : bool :=
  match o with
  | BuildStyles.Exec _ => false
  | _ => true
  end.

(** A statement that goes on to the next one, having only added console
    lines to the output. *)
Definition Proceeds {A} (m : BuildStyles.Script A) : Prop :=
  forall out, exists more a,
    m out = (out ++ more, BuildStyles.Next a) /\ forallb isConsole more = true.

(** A statement that, whatever its end, has only added console lines. *)
Definition ConsoleOnly {A} (m : BuildStyles.Script A) : Prop :=
  forall out out' end_, m out = (out', end_) ->
    exists more, out' = out ++ more /\ forallb isConsole more = true.

Module StylesFixtures.

Import BuildStyles.

(** A checkout with one block directory and a stray file beside it, one of
    the four CSS files missing, and a working Tailwind CLI. *)
Definition okWorld : World :=
  mkWorld "/kumo/scripts"
          (fun path => negb (String.eqb path "/kumo/scripts/../src/styles/theme-fedramp.css"))
          (fun _ => Ok tt)
          (fun _ _ => Ok tt)
          (fun path =>
             if String.eqb path "/kumo/scripts/../src/blocks"
             then Ok ["page-header"; "README.md"]
             else Ok ["page-header.tsx"; "index.ts"])
          (fun path =>
             Ok (if String.eqb path "/kumo/scripts/../src/blocks/page-header"
                 then mkStats true false else mkStats false true))
          (fun _ => Ok tt).

(** A checkout without dist/styles in which directories cannot be created. *)
Definition readOnlyWorld : World :=
  mkWorld "/kumo/scripts"
          (fun _ => false)
          (fun _ => Throw "EACCES: permission denied, mkdir")
          (fun _ _ => Ok tt)
          (fun _ => Ok [])
          (fun _ => Ok (mkStats false true))
          (fun _ => Ok tt).

End StylesFixtures.

(** * Properties *)

(** ** Objects *)

Section ObjFacts.

Context {V : Type}.
Implicit Types (o a b : obj V) (k : string) (v : V).

Lemma obj_get_set k k' v o :
  obj_get k (obj_set k' v o) = if String.eqb k k' then Some v else obj_get k o.
Proof.
  induction o as [|[k0 v0] o IH]; simpl.
  - destruct (String.eqb k k'); reflexivity.
  - destruct (String.eqb k' k0) eqn:E0; simpl.
    + apply String.eqb_eq in E0. subst k0.
      destruct (String.eqb k k'); reflexivity.
    + destruct (String.eqb k k0) eqn:E1.
      * apply String.eqb_eq in E1. subst k0.
        rewrite String.eqb_sym, E0. reflexivity.
      * exact IH.
Qed.

Lemma obj_get_set_same k v o : obj_get k (obj_set k v o) = Some v.
Proof. rewrite obj_get_set, String.eqb_refl. reflexivity. Qed.

Lemma obj_get_set_other k k' v o :
  k <> k' -> obj_get k (obj_set k' v o) = obj_get k o.
Proof.
  intros Hne. rewrite obj_get_set.
  destruct (String.eqb_spec k k'); [contradiction | reflexivity].
Qed.

Lemma obj_has_set k k' v o :
  obj_has k (obj_set k' v o) = String.eqb k k' || obj_has k o.
Proof.
  unfold obj_has. rewrite obj_get_set.
  destruct (String.eqb k k'); reflexivity.
Qed.

Lemma obj_has_keys k o : obj_has k o = true <-> In k (obj_keys o).
Proof.
  unfold obj_has, obj_keys.
  induction o as [|[k0 v0] o IH]; simpl.
  - split; [discriminate | tauto].
  - destruct (String.eqb_spec k k0) as [->|Hne].
    + split; auto.
    + rewrite IH. split; [auto | intros [H|H]; [congruence | exact H]].
Qed.

Lemma obj_get_in k v o : obj_get k o = Some v -> In (k, v) o.
Proof.
  induction o as [|[k0 v0] o IH]; simpl; [discriminate|].
  destruct (String.eqb_spec k k0) as [->|Hne].
  - intros [= ->]. auto.
  - auto.
Qed.

Lemma obj_has_spread k a b :
  obj_has k (obj_spread a b) = obj_has k a || obj_has k b.
Proof.
  unfold obj_spread. revert a.
  induction b as [|[k0 v0] b IH]; intros a; simpl.
  - rewrite orb_false_r. reflexivity.
  - rewrite IH, obj_has_set.
    replace (obj_has k ((k0, v0) :: b)) with (String.eqb k k0 || obj_has k b).
    + destruct (String.eqb k k0), (obj_has k a), (obj_has k b); reflexivity.
    + unfold obj_has. simpl. destruct (String.eqb k k0); reflexivity.
Qed.

Lemma nonEmpty_set k v o : nonEmpty (obj_set k v o) = true.
Proof.
  destruct o as [|[k0 v0] o]; simpl; [reflexivity|].
  destruct (String.eqb k k0); reflexivity.
Qed.

End ObjFacts.

Lemma includes_In xs x : includes xs x = true <-> In x xs.
Proof.
  unfold includes. rewrite existsb_exists. split.
  - intros [y [Hy Heq]]. apply String.eqb_eq in Heq. subst. exact Hy.
  - intros H. exists x. split; [exact H | apply String.eqb_refl].
Qed.

(** ** Inversion of the monad *)

Lemma bind_Ok {A B} (m : result A) (k : A -> result B) b :
  bind m k = Ok b -> exists a, m = Ok a /\ k a = Ok b.
Proof. destruct m; simpl; intros H; try discriminate. eauto. Qed.

Ltac inv_bind H :=
  let x := fresh "x" in
  let Hx := fresh "Hx" in
  apply bind_Ok in H; destruct H as [x [Hx H]].

(** ** The flags of a converted prop *)

Lemma flagsOf_enrich variantDef p :
  flagsOf (enrichWithVariant variantDef p) = flagsOf p.
Proof.
  unfold enrichWithVariant.
  destruct (nonEmpty (vm_descriptions _)), (nonEmpty (vm_classes _)),
    (nonEmpty (vm_stateClasses _)); reflexivity.
Qed.

Lemma flagsOf_set_type t p : flagsOf (set_type t p) = flagsOf p.
Proof. reflexivity. Qed.
Lemma flagsOf_set_description d p : flagsOf (set_description d p) = flagsOf p.
Proof. reflexivity. Qed.
Lemma flagsOf_set_values vs p : flagsOf (set_values vs p) = flagsOf p.
Proof. reflexivity. Qed.
Lemma flagsOf_set_default d p : flagsOf (set_default d p) = flagsOf p.
Proof. reflexivity. Qed.

Ltac flags_simpl :=
  repeat first
    [ rewrite flagsOf_set_default | rewrite flagsOf_enrich | rewrite flagsOf_set_type
    | rewrite flagsOf_set_values | rewrite flagsOf_set_description ].

Lemma convertToPropSchema_flags E propName def required variants defaults defs prop :
  convertToPropSchema E propName def required variants defaults defs = Ok prop ->
  flagsOf prop = if required then (Some true, None) else (None, Some true).
Proof.
  unfold convertToPropSchema. intros H.
  inv_bind H. inv_bind H. injection H as <-.
  repeat match goal with
  | |- context [match ?o with Some _ => _ | None => _ end] =>
      destruct o eqn:?
  | |- context [if truthy_opt ?o then _ else _] => destruct (truthy_opt o)
  end; flags_simpl; destruct required; reflexivity.
Qed.

Lemma convertProps_flags E config defs allRequired entries :
  forall props0 props name p,
    convertProps E config defs allRequired entries props0 = Ok props ->
    obj_get name props = Some p ->
    obj_get name props0 = Some p \/
    flagsOf p = if includes allRequired name then (Some true, None) else (None, Some true).
Proof.
  induction entries as [|[propName propDef] rest IH]; intros props0 props name p H Hget.
  - simpl in H. injection H as <-. left. exact Hget.
  - simpl in H. destruct (shouldSkipProp E propName (CLI_FLAGS E)).
    + eapply IH; eassumption.
    + inv_bind H.
      destruct (IH _ _ _ _ H Hget) as [Hold | Hnew]; [|right; exact Hnew].
      rewrite obj_get_set in Hold.
      destruct (String.eqb_spec name propName) as [->|Hne].
      * injection Hold as <-. right.
        eapply convertToPropSchema_flags. exact Hx.
      * left. exact Hold.
Qed.

(** C10: every PropSchema that the conversion loop of the type-based
    extraction puts into the props map carries exactly one of the two
    flags: [required: true] (and no [optional]) when its name is in the
    computed required set, [optional: true] (and no [required]) otherwise. *)
Theorem required_xor_optional E config defs allRequired allProperties props name p :
  convertProps E config defs allRequired allProperties [] = Ok props ->
  obj_get name props = Some p ->
  (includes allRequired name = true ->
   p_required p = Some true /\ p_optional p = None) /\
  (includes allRequired name = false ->
   p_optional p = Some true /\ p_required p = None).
Proof.
  intros H Hget.
  destruct (convertProps_flags _ _ _ _ _ _ _ _ _ H Hget) as [Hold | Hflags].
  - discriminate Hold.
  - unfold flagsOf in Hflags.
    split; intros Hin; rewrite Hin in Hflags; injection Hflags as -> ->; auto.
Qed.

(** ** Variant enrichment *)



Lemma collectVariantMaps_nonEmpty variantDef :
  forall acc,
    let maps := fold_left collectVariantEntry variantDef acc in
    nonEmpty (vm_descriptions maps)
      = nonEmpty (vm_descriptions acc) || existsb hasDescription variantDef
    /\ nonEmpty (vm_classes maps)
      = nonEmpty (vm_classes acc) || existsb hasClasses variantDef
    /\ nonEmpty (vm_stateClasses maps)
      = nonEmpty (vm_stateClasses acc) || existsb hasStateClasses variantDef.
Proof.
  induction variantDef as [|[key val] rest IH]; intros acc;
    cbn [fold_left existsb]; cbv zeta.
  - rewrite !orb_false_r. auto.
  - destruct (IH (collectVariantEntry acc (key, val))) as [Hd [Hc Hs]].
    cbv zeta in Hd, Hc, Hs.
    rewrite Hd, Hc, Hs. clear.
    unfold hasDescription, hasClasses, hasStateClasses, collectVariantEntry.
    destruct val as [d c s]; simpl.
    repeat split.
    + destruct d as [d|]; simpl; [destruct (truthy d)|];
        rewrite ?nonEmpty_set, ?orb_false_r; simpl;
        rewrite ?orb_true_r; reflexivity.
    + destruct c as [c|]; simpl; [destruct (truthy c)|];
        rewrite ?nonEmpty_set, ?orb_false_r; simpl;
        rewrite ?orb_true_r; reflexivity.
    + destruct s as [s|]; simpl;
        rewrite ?nonEmpty_set, ?orb_false_r; simpl;
        rewrite ?orb_true_r; reflexivity.
Qed.

Lemma mapsOf_enrich variantDef p :
  mapsOf (enrichWithVariant variantDef p) =
  let maps := collectVariantMaps variantDef in
  (attach (vm_descriptions maps) (p_descriptions p),
   attach (vm_classes maps) (p_classes p),
   attach (vm_stateClasses maps) (p_stateClasses p)).
Proof.
  unfold enrichWithVariant, attach, mapsOf. cbv zeta.
  destruct (nonEmpty (vm_descriptions _)), (nonEmpty (vm_classes _)),
    (nonEmpty (vm_stateClasses _)); reflexivity.
Qed.

Lemma attach_None {V} (m : obj V) :
  isSome (attach m None) = nonEmpty m /\ attach m None <> Some [].
Proof.
  unfold attach. destruct m; simpl; split; congruence.
Qed.

(** C7 (as the code has it): on a variant prop each of the descriptions,
    classes and stateClasses maps is present iff at least one option of the
    table has a value for that field which the loop takes up (a non-empty
    string for description and classes, any object for stateClasses), and
    none of them is ever present as an empty map. *)
Theorem variant_maps_attached E propName def required table defaults defs prop variantDef :
  convertToPropSchema E propName def required (Some table) defaults defs = Ok prop ->
  obj_get propName table = Some variantDef ->
  isSome (p_descriptions prop) = existsb hasDescription variantDef /\
  isSome (p_classes prop) = existsb hasClasses variantDef /\
  isSome (p_stateClasses prop) = existsb hasStateClasses variantDef /\
  p_descriptions prop <> Some [] /\
  p_classes prop <> Some [] /\
  p_stateClasses prop <> Some [].
Proof.
  unfold convertToPropSchema. intros H Hv.
  inv_bind H. inv_bind H. rewrite Hv in H. injection H as <-.
  match goal with
  | |- context [enrichWithVariant variantDef ?q] =>
      assert (Hq : mapsOf q = (None, None, None))
        by (repeat match goal with
            | |- context [match ?o with Some _ => _ | None => _ end] => destruct o
            | |- context [if ?b then _ else _] => destruct b
            end; reflexivity);
      pose proof (mapsOf_enrich variantDef q) as He;
      set (r := enrichWithVariant variantDef q) in *
  end.
  unfold mapsOf in Hq. injection Hq as Hq1 Hq2 Hq3.
  rewrite Hq1, Hq2, Hq3 in He. cbv zeta in He.
  assert (Hp : mapsOf (match defaults with
                       | Some ds => match obj_get propName ds with
                                    | Some d => set_default d r
                                    | None => r
                                    end
                       | None => r
                       end) = mapsOf r)
    by (destruct defaults as [ds|]; [destruct (obj_get propName ds)|]; reflexivity).
  rewrite He in Hp. unfold mapsOf in Hp. injection Hp as -> -> ->.
  destruct (collectVariantMaps_nonEmpty variantDef (mkMaps [] [] [])) as [Hd [Hc Hs]].
  simpl in Hd, Hc, Hs. fold (collectVariantMaps variantDef) in Hd, Hc, Hs.
  destruct (attach_None (vm_descriptions (collectVariantMaps variantDef))) as [A1 A2].
  destruct (attach_None (vm_classes (collectVariantMaps variantDef))) as [B1 B2].
  destruct (attach_None (vm_stateClasses (collectVariantMaps variantDef))) as [C1 C2].
  rewrite A1, B1, C1, Hd, Hc, Hs. auto 10.
Qed.

Import Fixtures.

Lemma required_xor_optional_witness :
  exists props label size,
    convertProps plainEnv Widget (s_definitions widgetSchema) ["label"]
                 widgetProperties [] = Ok props /\
    obj_get "label" props = Some label /\
    obj_get "size" props = Some size /\
    (p_required label = Some true /\ p_optional label = None) /\
    (p_optional size = Some true /\ p_required size = None).
Proof.
  eexists. eexists. eexists.
  split; [reflexivity|]. split; [reflexivity|]. split; [reflexivity|].
  split.
  - exact (proj1 (required_xor_optional plainEnv Widget (s_definitions widgetSchema)
                    ["label"] widgetProperties _ "label" _ eq_refl eq_refl) eq_refl).
  - exact (proj2 (required_xor_optional plainEnv Widget (s_definitions widgetSchema)
                    ["label"] widgetProperties _ "size" _ eq_refl eq_refl) eq_refl).
Defined.


(** C7 as stated fails on the library's own Surface: both options of its
    [color] table define [classes] (as the empty string), and the emitted
    prop has no [classes] map, while its [descriptions] map is there. *)
Lemma surface_classes_defined_but_absent :
  exists prop,
    obj_get "color" KUMO_SURFACE_VARIANTS
      = Some [("primary", mkOption (Some "Primary surface color") (Some "") None);
              ("secondary", mkOption (Some "Secondary surface color") (Some "") None)] /\
    convertToPropSchema plainEnv "color" (refTo "KumoSurfaceColor") false
      (Some KUMO_SURFACE_VARIANTS) (Some KUMO_SURFACE_DEFAULT_VARIANTS)
      (s_definitions surfaceSchema) = Ok prop /\
    p_classes prop = None /\
    p_descriptions prop = Some [("primary", "Primary surface color");
                                ("secondary", "Secondary surface color")].
Proof.
  eexists. split; [reflexivity|]. split; [reflexivity|]. split; reflexivity.
Qed.

Lemma variant_maps_attached_witness :
  exists prop,
    convertToPropSchema plainEnv "size" (enumOf ["sm"; "lg"]) false
      (Some widgetVariants) (Some widgetDefaults) (s_definitions widgetSchema) = Ok prop /\
    isSome (p_descriptions prop) = true /\
    isSome (p_classes prop) = true /\
    isSome (p_stateClasses prop) = false.
Proof.
  eexists. split; [reflexivity|].
  destruct (variant_maps_attached plainEnv "size" (enumOf ["sm"; "lg"]) false
              widgetVariants (Some widgetDefaults) (s_definitions widgetSchema)
              _ _ eq_refl eq_refl) as [Hd [Hc [Hs _]]].
  split; [exact Hd|]. split; [exact Hc | exact Hs].
Defined.

(** ** Union merge *)

Lemma convertProps_has E config defs allRequired entries :
  forall props0 props name,
    convertProps E config defs allRequired entries props0 = Ok props ->
    obj_has name props =
    obj_has name props0
    || (obj_has name entries && negb (shouldSkipProp E name (CLI_FLAGS E))).
Proof.
  induction entries as [|[propName propDef] rest IH]; intros props0 props name H.
  - simpl in H. injection H as <-. unfold obj_has at 3. simpl.
    rewrite orb_false_r. reflexivity.
  - simpl in H.
    assert (Hcons : obj_has name ((propName, propDef) :: rest)
                    = String.eqb name propName || obj_has name rest)
      by (unfold obj_has; simpl; destruct (String.eqb name propName); reflexivity).
    rewrite Hcons.
    destruct (shouldSkipProp E propName (CLI_FLAGS E)) eqn:Hskip.
    + rewrite (IH _ _ name H).
      destruct (String.eqb_spec name propName) as [->|Hne]; simpl.
      * rewrite Hskip. simpl. rewrite andb_false_r. reflexivity.
      * reflexivity.
    + inv_bind H. rewrite (IH _ _ name H), obj_has_set.
      destruct (String.eqb_spec name propName) as [->|Hne]; simpl.
      * rewrite Hskip. simpl. rewrite orb_true_r. reflexivity.
      * reflexivity.
Qed.



(** What [collectFromParts] makes of one union member: an inline object
    gives its own properties and required names, a $ref gives those of the
    definition it names (here for a definition without allOf). *)
Lemma collect_inline_member E depth defs part ps :
  truthy_opt (d_ref part) = false ->
  d_properties part = Some ps ->
  collectFromParts E (S depth) defs [part]
  = Ok (mkCollected (obj_spread [] ps)
                    (match d_required part with Some rs => rs | None => [] end)).
Proof.
  intros Href Hps. cbn [collectFromParts]. rewrite Href, Hps.
  destruct (d_required part); reflexivity.
Qed.

Lemma collect_ref_member E depth defs part refName ps rs
      dref enum type items anyOf oneOf description :
  truthy_opt (d_ref part) = true ->
  decodeURIComponent E (lastSegment (match d_ref part with Some r => r | None => "" end))
  = Ok refName ->
  lookupDef defs refName
  = Some (mkDef dref enum type items anyOf oneOf None (Some ps) (Some rs) description) ->
  collectFromParts E (S depth) defs [part]
  = Ok (mkCollected (obj_spread [] ps) rs).
Proof.
  intros Href Hdecode Hlookup. cbn [collectFromParts].
  rewrite Href, Hdecode. cbn [bind]. rewrite Hlookup. reflexivity.
Qed.



(** ** Fallback *)

Lemma variantsOnly_fold config variants :
  forall acc key,
    let props :=
      fold_left
        (fun props kv => obj_set (fst kv) (variantOnlyProp config (fst kv) (snd kv)) props)
        variants acc in
    (In key (obj_keys variants) ->
     exists variantDef,
       In (key, variantDef) variants /\
       obj_get key props = Some (variantOnlyProp config key variantDef)) /\
    (~ In key (obj_keys variants) -> obj_get key props = obj_get key acc).
Proof.
  induction variants as [|[k0 v0] rest IH]; intros acc key; cbn [fold_left]; cbv zeta.
  - split; [intros [] | reflexivity].
  - destruct (IH (obj_set k0 (variantOnlyProp config k0 v0) acc) key) as [Hin Hout].
    cbv zeta in Hin, Hout. simpl fst in *. simpl snd in *.
    destruct (in_dec string_dec key (obj_keys rest)) as [Hrest | Hrest].
    + split.
      * intros _. destruct (Hin Hrest) as [vd [Hvd Hget]].
        exists vd. split; [right; exact Hvd | exact Hget].
      * intros Hnot. exfalso. apply Hnot. right. exact Hrest.
    + split.
      * intros [Heq | Hin']; [|contradiction]. simpl in Heq. subst k0.
        exists v0. split; [left; reflexivity|].
        rewrite (Hout Hrest). apply obj_get_set_same.
      * intros Hnot. rewrite (Hout Hrest). apply obj_get_set_other.
        intros ->. apply Hnot. left. reflexivity.
Qed.

(** Whatever happens inside the try block, the Reader itself throws
    nothing. *)
Lemma generatePropsFromType_never_throws E config e :
  generatePropsFromType E config <> Throw e.
Proof.
  unfold generatePropsFromType, try_catch.
  destruct (tryGenerateProps E config); discriminate.
Qed.

(** C5 (as the code has it): an error thrown by the schema generator or
    during the traversal of its schema is caught, and the Reader returns the
    fallback: className of type string, children of type ReactNode, and for
    each declared variant (other than one that bears one of these two names)
    a prop of type "enum" with the table's option keys.  A schema that has
    no definition for the props type is not an error: the Reader returns an
    empty props map. *)
Theorem fallback_on_throw E config :
  (forall e,
      tryGenerateProps E config = Throw e ->
      let props := generatePropsFromVariantsOnly config in
      generatePropsFromType E config = Ok props /\
      (exists p, obj_get "className" props = Some p /\ p_type p = "string") /\
      (exists p, obj_get "children" props = Some p /\ p_type p = "ReactNode") /\
      (forall propName,
          In propName (obj_keys (cfg_variants config)) ->
          propName <> "className" -> propName <> "children" ->
          exists variantDef p,
            In (propName, variantDef) (cfg_variants config) /\
            obj_get propName props = Some p /\
            p_type p = "enum" /\
            p_values p = Some (obj_keys variantDef))) /\
  (forall schema,
      createSchema E (join (cfg_sourceDir config) (getSourceFile config))
                   (getPropsType config) = Ok schema ->
      lookupDef (s_definitions schema) (getPropsType config) = None ->
      generatePropsFromType E config = Ok []).
Proof.
  split.
  - intros e Hthrow props. split; [|split; [|split]].
    + unfold generatePropsFromType. rewrite Hthrow. reflexivity.
    + eexists. split.
      * unfold props, generatePropsFromVariantsOnly.
        rewrite obj_get_set_other by discriminate. apply obj_get_set_same.
      * reflexivity.
    + eexists. split.
      * unfold props, generatePropsFromVariantsOnly. apply obj_get_set_same.
      * reflexivity.
    + intros propName Hin Hc1 Hc2.
      destruct (variantsOnly_fold config (cfg_variants config) [] propName) as [Hfold _].
      destruct (Hfold Hin) as [variantDef [Hvd Hget]].
      exists variantDef. eexists. split; [exact Hvd|]. split.
      * unfold props, generatePropsFromVariantsOnly.
        rewrite !obj_get_set_other by assumption. exact Hget.
      * split; reflexivity.
  - intros schema Hschema Hmissing.
    unfold generatePropsFromType, tryGenerateProps. rewrite Hschema. simpl.
    unfold propsFromSchema. rewrite Hmissing. reflexivity.
Qed.

Lemma fallback_on_throw_witness :
  exists layout,
    generatePropsFromType plainEnv Table
      = Ok [("layout", layout);
            ("className", set_description "Additional CSS classes" (propOfType "string"));
            ("children", set_description "Child elements" (propOfType "ReactNode"))] /\
    p_type layout = "enum" /\
    p_values layout = Some ["auto"; "fixed"].
Proof.
  destruct (proj1 (fallback_on_throw plainEnv Table) _ eq_refl)
    as [Hgen [_ [_ Hvariants]]].
  eexists. split; [exact Hgen|]. split; reflexivity.
Defined.

(** C5 as stated fails when the generator succeeds but its schema has no
    definition named after the props type ("Could not find type"): Badge
    declares the variant prop [variant], and the Reader returns an empty
    map, without it and without className and children. *)
Lemma missing_definition_gives_no_fallback :
  obj_keys (cfg_variants Badge) = ["variant"] /\
  createSchema plainEnv (join (cfg_sourceDir Badge) (getSourceFile Badge))
               (getPropsType Badge) = Ok badgeSchema /\
  lookupDef (s_definitions badgeSchema) (getPropsType Badge) = None /\
  generatePropsFromType plainEnv Badge = Ok [].
Proof.
  repeat split; reflexivity.
Qed.

(** ** Cache validity *)

Lemma isValid_iff E entry sourceHash storyHash :
  isValid entry sourceHash storyHash (CACHE_VERSION E) = true <->
  ce_cacheVersion entry = CACHE_VERSION E /\
  ce_sourceHash entry = sourceHash /\
  ce_storyHash entry = storyHash.
Proof.
  unfold isValid. rewrite !andb_true_iff, Z.eqb_eq, !String.eqb_eq. tauto.
Qed.

Lemma regenerateComponent_not_cached E input sourcePath sourceHash storyHash r :
  regenerateComponent E input sourcePath sourceHash storyHash = Ok r ->
  r_cached r = false.
Proof.
  unfold regenerateComponent. intros H. inv_bind H. injection H as <-. reflexivity.
Qed.

(** C4: with caching on and an entry stored for the component, the stored
    schema is reused iff the entry's cache version is the current one and
    its two hashes are the fresh hashes of the source and story files; on
    any mismatch the component is regenerated. *)
Theorem cache_reuse_iff_valid E input entry :
  noCache (CLI_FLAGS E) = false ->
  obj_get (cfg_name (in_config input)) (cache_entries (in_cache input)) = Some entry ->
  let config := in_config input in
  let sourcePath := join (cfg_sourceDir config) (getSourceFile config) in
  let sourceHash := hashFileContent E sourcePath in
  let storyHash := hashFileContent E (storyPathOf config) in
  let matches :=
    ce_cacheVersion entry = CACHE_VERSION E /\
    ce_sourceHash entry = sourceHash /\
    ce_storyHash entry = storyHash in
  (isValid entry sourceHash storyHash (CACHE_VERSION E) = true <-> matches) /\
  (matches ->
   exists r, processComponent E input = Ok r /\
             r_cached r = true /\ r_schema r = ce_metadata entry) /\
  (~ matches ->
   processComponent E input
   = regenerateComponent E input sourcePath sourceHash storyHash) /\
  (forall r, processComponent E input = Ok r -> (r_cached r = true <-> matches)).
Proof.
  intros Hflag Hentry. cbv zeta.
  set (config := in_config input) in *.
  set (sourcePath := join (cfg_sourceDir config) (getSourceFile config)).
  set (sourceHash := hashFileContent E sourcePath).
  set (storyHash := hashFileContent E (storyPathOf config)).
  set (matches := ce_cacheVersion entry = CACHE_VERSION E /\
                  ce_sourceHash entry = sourceHash /\
                  ce_storyHash entry = storyHash).
  pose proof (isValid_iff E entry sourceHash storyHash) as Hiff.
  fold matches in Hiff.
  assert (Hcases :
            (matches /\ exists r, processComponent E input = Ok r /\
                                  r_cached r = true /\ r_schema r = ce_metadata entry)
            \/ (~ matches /\
                processComponent E input
                = regenerateComponent E input sourcePath sourceHash storyHash)).
  { unfold processComponent, getCachedComponent. cbv zeta.
    fold config. fold sourcePath. fold sourceHash. fold storyHash.
    rewrite Hflag, Hentry.
    destruct (isValid entry sourceHash storyHash (CACHE_VERSION E)) eqn:Hvalid.
    - left. split; [apply Hiff; reflexivity|].
      eexists. split; [reflexivity|]. split; reflexivity.
    - right. split; [|reflexivity].
      intros Hm. apply Hiff in Hm. discriminate. }
  split; [exact Hiff|].
  destruct Hcases as [[Hm [r [Hr [Hc Hs]]]] | [Hn Hregen]].
  - split; [intros _; exists r; auto|].
    split; [intros Hnot; contradiction|].
    intros r' Hr'. rewrite Hr in Hr'. injection Hr' as <-. tauto.
  - split; [intros Hm; contradiction|].
    split; [intros _; exact Hregen|].
    intros r Hr. rewrite Hregen in Hr.
    apply regenerateComponent_not_cached in Hr. rewrite Hr.
    split; [discriminate | intros Hm; contradiction].
Qed.

Lemma cache_reuse_iff_valid_witness :
  exists r,
    processComponent cachedEnv (mkInput Widget [] [] widgetCache) = Ok r /\
    r_cached r = true /\
    r_schema r = widgetCachedSchema.
Proof.
  destruct (cache_reuse_iff_valid cachedEnv (mkInput Widget [] [] widgetCache)
              widgetEntry eq_refl eq_refl) as [_ [Hreuse _]].
  apply Hreuse. repeat split; reflexivity.
Defined.

(** ** Batches *)

Ltac mod_lia := zify; Z.to_euclidean_division_equations; lia.

Section Orchestrator.

Variable E : Env.
Variables (variantConstants storyExamples : obj (list string)) (cache : CacheFile).

Lemma callUnits_ok batch rs :
  Forall2 (unitOk E variantConstants storyExamples cache) batch rs ->
  forall index trace,
    callUnits E variantConstants storyExamples cache index batch trace
    = Ok (map Ok rs, trace ++ flat_map callEvents (seq index (length batch))).
Proof.
  induction 1 as [|config r batch rs Hr _ IH]; intros index trace; simpl.
  - rewrite app_nil_r. reflexivity.
  - unfold unitOk in Hr. rewrite Hr, IH. simpl.
    rewrite <- app_assoc. reflexivity.
Qed.

Lemma Promise_all_fulfilled {A} (rs : list A) : Promise_all (map Ok rs) = Ok rs.
Proof.
  unfold Promise_all. induction rs as [|r rs IH]; simpl; [reflexivity|].
  rewrite IH. reflexivity.
Qed.

End Orchestrator.

Lemma batch_events n i :
  i mod BATCH_SIZE = 0 -> i < n ->
  flat_map (unitEvents n) (seq i (Nat.min BATCH_SIZE (n - i)))
  = flat_map callEvents (seq i (Nat.min BATCH_SIZE (n - i))) ++ [BatchAwaited i].
Proof.
  unfold BATCH_SIZE. intros Hi Hlt.
  destruct (Nat.min 8 (n - i)) as [|m] eqn:Hm; [lia|].
  rewrite seq_S, !flat_map_app. cbn [flat_map]. rewrite !app_nil_r.
  rewrite <- app_assoc. f_equal.
  - rewrite !flat_map_concat_map. f_equal.
    apply map_ext_in. intros k Hk. apply in_seq in Hk.
    unfold unitEvents, callEvents, endsBatch, BATCH_SIZE.
    replace (Nat.eqb (S k mod 8) 0) with false
      by (symmetry; apply Nat.eqb_neq; mod_lia).
    replace (Nat.eqb (S k) n) with false
      by (symmetry; apply Nat.eqb_neq; lia).
    simpl. reflexivity.
  - unfold unitEvents, callEvents, endsBatch, BATCH_SIZE.
    replace (Nat.eqb (S (i + m) mod 8) 0 || Nat.eqb (S (i + m)) n) with true.
    + replace (i + m - (i + m) mod 8) with i by mod_lia. reflexivity.
    + symmetry. apply orb_true_iff.
      destruct (Nat.eq_dec m 7) as [->|Hne].
      * left. apply Nat.eqb_eq. mod_lia.
      * right. apply Nat.eqb_eq. lia.
Qed.

Lemma Forall2_slice {A B} (R : A -> B -> Prop) i j l l' :
  Forall2 R l l' -> Forall2 R (slice i j l) (slice i j l').
Proof.
  unfold slice. intros H.
  assert (Hskip : forall k, Forall2 R (skipn k l) (skipn k l')).
  { induction H; intros [|k]; simpl; auto. }
  generalize (Hskip i). generalize (skipn i l) (skipn i l') (j - i).
  intros s s' k Hs. revert k.
  induction Hs; intros [|k]; simpl; auto.
Qed.

Lemma batchLoop_ok E variantConstants storyExamples cache configs rs :
  Forall2 (unitOk E variantConstants storyExamples cache) configs rs ->
  forall m i results trace,
    m = length configs - i ->
    i mod BATCH_SIZE = 0 ->
    batchLoop E variantConstants storyExamples cache configs i results trace
    = Ok (results ++ skipn i rs,
          trace ++ flat_map (unitEvents (length configs))
                            (seq i (length configs - i))).
Proof.
  intros Hall.
  assert (Hlen : length rs = length configs)
    by (symmetry; eapply Forall2_length; exact Hall).
  induction m as [m IH] using lt_wf_ind.
  intros i results trace Hm Hi.
  rewrite batchLoop_equation_1.
  destruct (lt_dec i (length configs)) as [Hlt | Hge];
    unfold batchLoop_unfold_clause_1.
  - assert (Hbatch : length (slice i (i + BATCH_SIZE) configs)
                     = Nat.min BATCH_SIZE (length configs - i)).
    { unfold slice. rewrite length_firstn, length_skipn. f_equal. lia. }
    rewrite (callUnits_ok E variantConstants storyExamples cache _ _
               (Forall2_slice _ i (i + BATCH_SIZE) _ _ Hall)).
    rewrite Promise_all_fulfilled.
    rewrite (IH (length configs - (i + BATCH_SIZE)));
      [ | unfold BATCH_SIZE; lia | reflexivity | unfold BATCH_SIZE in *; mod_lia ].
    rewrite Hbatch. f_equal. f_equal.
    + rewrite <- app_assoc. f_equal.
      unfold slice. replace (i + BATCH_SIZE - i) with BATCH_SIZE by lia.
      replace (i + BATCH_SIZE) with (BATCH_SIZE + i) by lia.
      rewrite <- skipn_skipn. apply firstn_skipn.
    + rewrite <- !app_assoc. f_equal. rewrite app_assoc.
      rewrite <- (batch_events (length configs) i Hi Hlt).
      rewrite <- flat_map_app. f_equal.
      unfold BATCH_SIZE.
      destruct (Nat.le_gt_cases 8 (length configs - i)) as [Hfull | Hlast].
      * rewrite Nat.min_l by exact Hfull. rewrite <- seq_app. f_equal. lia.
      * rewrite Nat.min_r by lia.
        replace (length configs - (i + 8)) with 0 by lia.
        simpl. rewrite app_nil_r. reflexivity.
  - replace (length configs - i) with 0 by lia. simpl.
    rewrite skipn_all2 by lia. rewrite !app_nil_r. reflexivity.
Qed.

Lemma trace_before_start n m :
  forall a before v after,
    flat_map (unitEvents n) (seq a m) = before ++ UnitStarted v :: after ->
    a <= v /\ before = flat_map (unitEvents n) (seq a (v - a)).
Proof.
  induction m as [|m IH]; intros a before v after H.
  - destruct before; discriminate H.
  - cbn [seq flat_map] in H. unfold unitEvents at 1 in H. cbn [app] in H.
    destruct before as [|e1 before]; cbn [app] in H.
    { injection H as Hv _. subst v. split; [lia|].
      rewrite Nat.sub_diag. reflexivity. }
    injection H as He1 H. subst e1.
    destruct before as [|e2 before]; cbn [app] in H; [discriminate H|].
    injection H as He2 H. subst e2.
    assert (Hrest : exists marks before',
               before = marks ++ before' /\
               marks = (if endsBatch n a
                        then [BatchAwaited (a - a mod BATCH_SIZE)] else []) /\
               flat_map (unitEvents n) (seq (S a) m)
               = before' ++ UnitStarted v :: after).
    { destruct (endsBatch n a); cbn [app] in H.
      - destruct before as [|e3 before]; cbn [app] in H; [discriminate H|].
        injection H as He3 H. subst e3.
        exists [BatchAwaited (a - a mod BATCH_SIZE)], before. auto.
      - exists [], before. auto. }
    destruct Hrest as [marks [before' [-> [Hmarks Hrest]]]].
    destruct (IH _ _ _ _ Hrest) as [Hle ->].
    split; [lia|].
    replace (v - a) with (S (v - S a)) by lia.
    rewrite Hmarks. cbn [seq flat_map].
    change (unitEvents n a)
      with ([UnitStarted a; UnitSettled a]
            ++ (if endsBatch n a then [BatchAwaited (a - a mod BATCH_SIZE)] else [])).
    rewrite <- app_assoc. reflexivity.
Qed.

Lemma processComponentsInParallel_ok E variantConstants storyExamples cache configs rs :
  Forall2 (unitOk E variantConstants storyExamples cache) configs rs ->
  processComponentsInParallel E configs variantConstants storyExamples cache
  = Ok (rs, flat_map (unitEvents (length configs)) (seq 0 (length configs))).
Proof.
  intros Hall. unfold processComponentsInParallel.
  rewrite (batchLoop_ok E variantConstants storyExamples cache configs rs Hall
             (length configs - 0) 0 [] [] eq_refl eq_refl).
  rewrite Nat.sub_0_r. reflexivity.
Qed.

(** C6: when every unit returns, the orchestrator returns exactly the
    units' results, one per config and in the configs' order; the units run
    in batches of eight, each awaited as a whole; and no unit is called
    before every unit of every earlier batch has settled and the await on
    that batch has resumed. *)
Theorem batches_of_eight E variantConstants storyExamples cache configs results :
  Forall2 (fun config r =>
             processComponent E (mkInput config variantConstants storyExamples cache)
             = Ok r)
          configs results ->
  exists trace,
    processComponentsInParallel E configs variantConstants storyExamples cache
    = Ok (results, trace) /\
    length results = length configs /\
    trace = flat_map (unitEvents (length configs)) (seq 0 (length configs)) /\
    (forall before v after,
        trace = before ++ UnitStarted v :: after ->
        forall u,
          u / BATCH_SIZE < v / BATCH_SIZE ->
          In (UnitSettled u) before /\
          In (BatchAwaited (BATCH_SIZE * (u / BATCH_SIZE))) before).
Proof.
  intros Hall.
  exists (flat_map (unitEvents (length configs)) (seq 0 (length configs))).
  split; [|split; [|split]].
  - apply processComponentsInParallel_ok. exact Hall.
  - symmetry. eapply Forall2_length. exact Hall.
  - reflexivity.
  - intros before v after Hsplit u Hu.
    destruct (trace_before_start _ _ _ _ _ _ Hsplit) as [_ ->].
    rewrite Nat.sub_0_r. unfold BATCH_SIZE in *.
    split; apply in_flat_map.
    + exists u. split; [apply in_seq; mod_lia|].
      unfold unitEvents. simpl. auto.
    + exists (8 * (u / 8) + 7). split; [apply in_seq; mod_lia|].
      unfold unitEvents, endsBatch, BATCH_SIZE.
      replace (Nat.eqb (S (8 * (u / 8) + 7) mod 8) 0) with true
        by (symmetry; apply Nat.eqb_eq; mod_lia).
      cbn [orb app]. right. right. left. f_equal. mod_lia.
Qed.

Lemma batches_of_eight_witness :
  exists trace,
    processComponentsInParallel plainEnv nineConfigs [] [] emptyCache
    = Ok (nineResults, trace) /\
    map r_name nineResults
    = ["Widget"; "Surface"; "Choice"; "Table"; "Badge";
       "Widget"; "Surface"; "Choice"; "Table"] /\
    trace
    = [UnitStarted 0; UnitSettled 0; UnitStarted 1; UnitSettled 1;
       UnitStarted 2; UnitSettled 2; UnitStarted 3; UnitSettled 3;
       UnitStarted 4; UnitSettled 4; UnitStarted 5; UnitSettled 5;
       UnitStarted 6; UnitSettled 6; UnitStarted 7; UnitSettled 7;
       BatchAwaited 0;
       UnitStarted 8; UnitSettled 8; BatchAwaited 8].
Proof.
  destruct (batches_of_eight plainEnv [] [] emptyCache nineConfigs nineResults)
    as [trace [Hrun [Hlen [Htrace Horder]]]].
  - unfold nineConfigs, nineResults.
    repeat (constructor; [vm_compute; reflexivity|]). constructor.
  - exists trace. split; [exact Hrun|].
    split; [reflexivity | exact Htrace].
Defined.

(** ** Registry assembly *)

Lemma processComponent_name E input r :
  processComponent E input = Ok r -> r_name r = cfg_name (in_config input).
Proof.
  unfold processComponent.
  destruct (getCachedComponent _ _ _ _ _ _).
  - intros [= <-]. reflexivity.
  - unfold regenerateComponent. intros H. inv_bind H. injection H as <-. reflexivity.
Qed.

Lemma names_of_results E variantConstants storyExamples cache configs rs :
  Forall2 (unitOk E variantConstants storyExamples cache) configs rs ->
  map r_name rs = map cfg_name configs.
Proof.
  induction 1 as [|config r configs rs Hr _ IH]; simpl; [reflexivity|].
  rewrite IH. f_equal. apply (processComponent_name _ _ _ Hr).
Qed.

Lemma addComponentResults_tables crs :
  forall t,
    let t' := fold_left addComponentResult crs t in
    t_blocks t' = t_blocks t /\
    component (t_byType t') = component (t_byType t) ++ map r_name crs /\
    block (t_byType t') = block (t_byType t) /\
    (forall name,
        obj_has name (t_components t') = true <->
        obj_has name (t_components t) = true \/ In name (map r_name crs)).
Proof.
  induction crs as [|r crs IH]; intros t; cbn [fold_left map]; cbv zeta.
  - rewrite app_nil_r. repeat split; auto. intros [H|[]]. exact H.
  - destruct (IH (addComponentResult t r)) as [Hb [Hc [Hk Hn]]].
    cbv zeta in Hb, Hc, Hk, Hn.
    rewrite Hb, Hc, Hk. cbn [addComponentResult t_blocks t_byType component block].
    rewrite <- app_assoc. repeat split; auto.
    + intros H. apply Hn in H. cbn [addComponentResult t_components] in H.
      rewrite obj_has_set in H. destruct H as [H|H]; [|right; right; exact H].
      apply orb_true_iff in H. destruct H as [H|H]; [|left; exact H].
      apply String.eqb_eq in H. right. left. symmetry. exact H.
    + intros H. apply Hn. cbn [addComponentResult t_components].
      rewrite obj_has_set.
      destruct H as [H|[H|H]]; [left | left | right; exact H].
      * rewrite H. apply orb_true_r.
      * subst name. rewrite String.eqb_refl. reflexivity.
Qed.

Lemma find_block BLOCKS name :
  In name (map cfg_name BLOCKS) ->
  exists blockConfig,
    find (fun b => String.eqb (cfg_name b) name) BLOCKS = Some blockConfig.
Proof.
  induction BLOCKS as [|b BLOCKS IH]; simpl; [intros []|].
  destruct (String.eqb_spec (cfg_name b) name) as [Heq|Hne].
  - intros _. exists b. reflexivity.
  - intros [H|H]; [contradiction | exact (IH H)].
Qed.

Lemma addBlockResults_ok E BLOCKS brs :
  Forall (fun r => In (r_name r) (map cfg_name BLOCKS)) brs ->
  forall t,
  exists t',
    addBlockResults E BLOCKS t brs = Ok t' /\
    t_components t' = t_components t /\
    component (t_byType t') = component (t_byType t).
Proof.
  induction 1 as [|r brs Hr _ IH]; intros t; simpl.
  - exists t. auto.
  - unfold addBlockResult at 1.
    destruct (find_block BLOCKS (r_name r) Hr) as [blockConfig ->]. simpl.
    match goal with
    | |- context [addBlockResults E BLOCKS ?t1 brs] => destruct (IH t1) as [t' [Ht' [Hc Hb]]]
    end.
    exists t'. split; [exact Ht'|]. split; [rewrite Hc | rewrite Hb]; reflexivity.
Qed.

Lemma generateRegistry_ok E storyExamples crs brs :
  loadDemoExamples E = Ok storyExamples ->
  Forall2 (unitOk E (buildVariantConstants E (discoverComponents E ++ discoverBlocks E))
                  storyExamples (loadCache E))
          (discoverComponents E) crs ->
  Forall2 (unitOk E (buildVariantConstants E (discoverComponents E ++ discoverBlocks E))
                  storyExamples (loadCache E))
          (discoverBlocks E) brs ->
  exists g t,
    generateRegistry E = Ok g /\
    byName (search (registry g)) = map r_name (sortByName E (crs ++ brs)) /\
    byType (search (registry g)) = t_byType (addInputArea E t) /\
    components (registry g) = t_components (addInputArea E t) /\
    component (t_byType t) = map cfg_name (discoverComponents E) /\
    (forall name,
        obj_has name (t_components t) = true <->
        In name (map cfg_name (discoverComponents E))).
Proof.
  intros Hdemo Hcs Hbs.
  pose proof (names_of_results _ _ _ _ _ _ Hcs) as Hcn.
  pose proof (names_of_results _ _ _ _ _ _ Hbs) as Hbn.
  set (t0 := mkTables [] [] [] (mkByType [] []) [] (mkCache (CACHE_VERSION E) [])).
  destruct (addComponentResults_tables crs t0) as [_ [Hcomp [_ Hkeys]]].
  cbv zeta in Hcomp, Hkeys.
  assert (Hin : Forall (fun r => In (r_name r) (map cfg_name (discoverBlocks E))) brs).
  { rewrite <- Hbn. apply Forall_forall. intros r Hr. apply in_map. exact Hr. }
  destruct (addBlockResults_ok E (discoverBlocks E) brs Hin
              (fold_left addComponentResult crs t0)) as [t [Ht [Htc Htb]]].
  eexists. exists t.
  split.
  - unfold generateRegistry. rewrite Hdemo. cbn [bind].
    rewrite (processComponentsInParallel_ok _ _ _ _ _ _ Hcs). cbn [bind].
    rewrite (processComponentsInParallel_ok _ _ _ _ _ _ Hbs). cbn [bind].
    fold t0. rewrite Ht. cbn [bind]. reflexivity.
  - cbn [registry search byName byType components].
    split; [reflexivity|]. split; [reflexivity|]. split; [reflexivity|].
    split.
    + rewrite Htb, Hcomp, Hcn. reflexivity.
    + intros name. rewrite Htc, Hkeys, Hcn.
      unfold obj_has. simpl. split; [intros [H|H]; [discriminate | exact H] | auto].
Qed.

(** ** Sorting by name *)

Section Sorting.

Variable E : Env.

Hypothesis le_total : forall a b, nameLe E a b \/ nameLe E b a.
Hypothesis le_trans : forall a b c, nameLe E a b -> nameLe E b c -> nameLe E a c.

Lemma insertByName_perm r sorted :
  Permutation (insertByName E r sorted) (r :: sorted).
Proof.
  induction sorted as [|r' rest IH]; simpl; [reflexivity|].
  destruct (localeCompare E (r_name r) (r_name r') <=? 0)%Z; [reflexivity|].
  rewrite IH. apply perm_swap.
Qed.

Lemma sortByName_perm rs : Permutation (sortByName E rs) rs.
Proof.
  induction rs as [|r rs IH]; simpl; [reflexivity|].
  rewrite insertByName_perm, IH. reflexivity.
Qed.

Lemma insertByName_sorted r sorted :
  StronglySorted (resultLe E) sorted -> StronglySorted (resultLe E) (insertByName E r sorted).
Proof.
  induction 1 as [|r' rest Hrest IH Hall]; simpl.
  - constructor; constructor.
  - destruct (Z.leb_spec (localeCompare E (r_name r) (r_name r')) 0) as [Hle|Hgt].
    + constructor; [constructor; assumption|].
      constructor; [exact Hle|].
      eapply Forall_impl; [|exact Hall].
      intros r'' Hr''. eapply le_trans; [exact Hle | exact Hr''].
    + constructor; [exact IH|].
      eapply Permutation_Forall; [symmetry; apply insertByName_perm|].
      constructor; [|exact Hall].
      destruct (le_total (r_name r) (r_name r')) as [H|H]; [|exact H].
      unfold nameLe in H. lia.
Qed.

Lemma sortByName_sorted rs : StronglySorted (resultLe E) (sortByName E rs).
Proof.
  induction rs as [|r rs IH]; simpl; [constructor|].
  apply insertByName_sorted. exact IH.
Qed.

Lemma sorted_names rs :
  StronglySorted (resultLe E) rs -> StronglySorted (nameLe E) (map r_name rs).
Proof.
  induction 1 as [|r rs _ IH Hall]; simpl; constructor; [exact IH|].
  apply Forall_map. exact Hall.
Qed.

Lemma sorted_unique (l1 : list string) :
  (forall a b, nameLe E a b -> nameLe E b a -> a = b) ->
  forall l2,
    StronglySorted (nameLe E) l1 -> StronglySorted (nameLe E) l2 ->
    Permutation l1 l2 -> l1 = l2.
Proof.
  intros Hanti.
  induction l1 as [|a l1 IH]; intros l2 H1 H2 Hperm.
  - apply Permutation_nil in Hperm. subst. reflexivity.
  - destruct l2 as [|b l2]; [apply Permutation_sym, Permutation_nil in Hperm; discriminate|].
    inversion H1 as [|? ? H1' Ha]; subst.
    inversion H2 as [|? ? H2' Hb]; subst.
    assert (Hab : a = b).
    { assert (Hain : In a (b :: l2)) by (eapply Permutation_in; [exact Hperm | left; reflexivity]).
      assert (Hbin : In b (a :: l1))
        by (eapply Permutation_in; [symmetry; exact Hperm | left; reflexivity]).
      destruct Hain as [Heq | Hain]; [symmetry; exact Heq|].
      destruct Hbin as [Heq | Hbin]; [exact Heq|].
      apply Hanti.
      - rewrite Forall_forall in Ha. apply Ha. exact Hbin.
      - rewrite Forall_forall in Hb. apply Hb. exact Hain. }
    subst b. f_equal. apply IH; try assumption.
    eapply Permutation_cons_inv. exact Hperm.
Qed.

End Sorting.

(** ** The registry's indexes *)

(** C2 (as the code has it): when the units return, the registry is
    produced and its byName index is the list of the names of all processed
    components and blocks (the discovered configs), sorted by the
    comparator; with an antisymmetric comparator it is the only sorted
    arrangement of these names, whatever the order they were processed in.
    (The synthetic InputArea entry of the components map is not among
    them.) *)
Theorem byName_sorted_names E storyExamples crs brs :
  loadDemoExamples E = Ok storyExamples ->
  Forall2 (unitOk E (buildVariantConstants E (discoverComponents E ++ discoverBlocks E))
                  storyExamples (loadCache E))
          (discoverComponents E) crs ->
  Forall2 (unitOk E (buildVariantConstants E (discoverComponents E ++ discoverBlocks E))
                  storyExamples (loadCache E))
          (discoverBlocks E) brs ->
  (forall a b, nameLe E a b \/ nameLe E b a) ->
  (forall a b c, nameLe E a b -> nameLe E b c -> nameLe E a c) ->
  exists g,
    generateRegistry E = Ok g /\
    Permutation (byName (search (registry g)))
                (map cfg_name (discoverComponents E ++ discoverBlocks E)) /\
    StronglySorted (nameLe E) (byName (search (registry g))) /\
    ((forall a b, nameLe E a b -> nameLe E b a -> a = b) ->
     forall names,
       Permutation names (map cfg_name (discoverComponents E ++ discoverBlocks E)) ->
       StronglySorted (nameLe E) names ->
       names = byName (search (registry g))).
Proof.
  intros Hdemo Hcs Hbs Htotal Htrans.
  destruct (generateRegistry_ok E storyExamples crs brs Hdemo Hcs Hbs)
    as [g [t [Hg [Hnames _]]]].
  exists g. split; [exact Hg|]. rewrite Hnames.
  assert (Hperm : Permutation (map r_name (sortByName E (crs ++ brs)))
                              (map cfg_name (discoverComponents E ++ discoverBlocks E))).
  { rewrite (Permutation_map r_name (sortByName_perm E (crs ++ brs))).
    rewrite !map_app.
    rewrite (names_of_results _ _ _ _ _ _ Hcs), (names_of_results _ _ _ _ _ _ Hbs).
    reflexivity. }
  assert (Hsorted : StronglySorted (nameLe E) (map r_name (sortByName E (crs ++ brs)))).
  { apply sorted_names. apply sortByName_sorted; assumption. }
  split; [exact Hperm|]. split; [exact Hsorted|].
  intros Hanti names Hp Hs.
  apply (sorted_unique E names Hanti); try assumption.
  rewrite Hp. symmetry. exact Hperm.
Qed.

Lemma codeUnitCompare_le a b :
  (codeUnitCompare a b <= 0)%Z <-> OrdersEx.String_as_OT.lt a b \/ a = b.
Proof.
  unfold codeUnitCompare.
  destruct (OrdersEx.String_as_OT.compare_spec a b) as [Heq | Hlt | Hgt].
  - split; [auto | lia].
  - split; [auto | lia].
  - split; [lia|].
    intros [Hlt | Heq].
    + exfalso. apply (StrictOrder_Irreflexive a).
      eapply (StrictOrder_Transitive a b a); eassumption.
    + subst b. exfalso. apply (StrictOrder_Irreflexive a). exact Hgt.
Qed.

Lemma codeUnitCompare_total a b :
  (codeUnitCompare a b <= 0)%Z \/ (codeUnitCompare b a <= 0)%Z.
Proof.
  rewrite !codeUnitCompare_le.
  destruct (OrdersEx.String_as_OT.compare_spec a b) as [Heq | Hlt | Hgt]; auto.
Qed.

Lemma codeUnitCompare_trans a b c :
  (codeUnitCompare a b <= 0)%Z -> (codeUnitCompare b c <= 0)%Z ->
  (codeUnitCompare a c <= 0)%Z.
Proof.
  rewrite !codeUnitCompare_le.
  intros [Hab | ->] [Hbc | ->]; auto.
  left. eapply (StrictOrder_Transitive a b c); eassumption.
Qed.

Lemma byName_sorted_names_witness :
  exists g,
    generateRegistry registryEnv = Ok g /\
    byName (search (registry g)) = ["Choice"; "Table"; "Widget"].
Proof.
  destruct (byName_sorted_names registryEnv [] componentResults blockResults)
    as [g [Hg [Hperm [Hsorted Hunique]]]].
  - reflexivity.
  - unfold componentResults. simpl discoverComponents.
    repeat (constructor; [vm_compute; reflexivity|]). constructor.
  - unfold blockResults. simpl discoverBlocks.
    repeat (constructor; [vm_compute; reflexivity|]). constructor.
  - exact codeUnitCompare_total.
  - exact codeUnitCompare_trans.
  - exists g. split; [exact Hg|].
    symmetry. apply Hunique.
    + intros a b Hab Hba. unfold nameLe in Hab, Hba. simpl in Hab, Hba.
      apply codeUnitCompare_le in Hab. apply codeUnitCompare_le in Hba.
      destruct Hab as [Hab | Hab]; [|exact Hab].
      destruct Hba as [Hba | Hba]; [|symmetry; exact Hba].
      exfalso. apply (StrictOrder_Irreflexive a).
      eapply (StrictOrder_Transitive a b a); eassumption.
    + simpl. apply perm_trans with ["Choice"; "Widget"; "Table"].
      * apply perm_skip. apply perm_swap.
      * apply perm_swap.
    + repeat constructor; unfold nameLe; simpl; vm_compute; discriminate.
Defined.

(** C2 as stated fails on the names of the registry's components map: with
    styling metadata for InputArea, the map has the key InputArea, and
    byName does not. *)
Lemma byName_misses_InputArea :
  exists g,
    generateRegistry registryEnv = Ok g /\
    obj_has "InputArea" (components (registry g)) = true /\
    byName (search (registry g)) = ["Choice"; "Table"; "Widget"].
Proof.
  destruct (generateRegistry_ok registryEnv [] componentResults blockResults)
    as [g [t [Hg [Hnames [_ [Hcomponents _]]]]]].
  - reflexivity.
  - unfold componentResults. simpl discoverComponents.
    repeat (constructor; [vm_compute; reflexivity|]). constructor.
  - unfold blockResults. simpl discoverBlocks.
    repeat (constructor; [vm_compute; reflexivity|]). constructor.
  - exists g. split; [exact Hg|]. split.
    + rewrite Hcomponents. unfold addInputArea. simpl.
      rewrite obj_has_set. reflexivity.
    + rewrite Hnames. reflexivity.
Qed.

(** C9: with a (truthy) InputArea entry in the styling-metadata table and
    no discovered component or block of that name, the registry's
    components map holds the synthetic InputArea schema, with empty props,
    and InputArea is neither in byName nor in byType.component, while every
    name of byType.component is a key of the components map: the map's keys
    are a strict superset of the indexed component names. *)
Theorem synthetic_InputArea E storyExamples crs brs styling :
  loadDemoExamples E = Ok storyExamples ->
  Forall2 (unitOk E (buildVariantConstants E (discoverComponents E ++ discoverBlocks E))
                  storyExamples (loadCache E))
          (discoverComponents E) crs ->
  Forall2 (unitOk E (buildVariantConstants E (discoverComponents E ++ discoverBlocks E))
                  storyExamples (loadCache E))
          (discoverBlocks E) brs ->
  obj_get "InputArea" (COMPONENT_STYLING_METADATA E) = Some styling ->
  json_truthy styling = true ->
  ~ In "InputArea" (map cfg_name (discoverComponents E ++ discoverBlocks E)) ->
  exists g,
    generateRegistry E = Ok g /\
    obj_get "InputArea" (components (registry g)) = Some (syntheticInputArea styling) /\
    cs_props (syntheticInputArea styling) = [] /\
    ~ In "InputArea" (byName (search (registry g))) /\
    ~ In "InputArea" (component (byType (search (registry g)))) /\
    (forall name,
        In name (component (byType (search (registry g)))) ->
        obj_has name (components (registry g)) = true).
Proof.
  intros Hdemo Hcs Hbs Hstyling Htruthy Hfresh.
  destruct (generateRegistry_ok E storyExamples crs brs Hdemo Hcs Hbs)
    as [g [t [Hg [Hnames [HbyType [Hcomponents [Hcomp Hkeys]]]]]]].
  exists g. split; [exact Hg|].
  assert (Harea : addInputArea E t
                  = mkTables
                      (obj_set "InputArea" (syntheticInputArea styling) (t_components t))
                      (t_blocks t)
                      (match obj_get "Input" (t_byCategory t) with
                       | Some _ => t_byCategory t
                       | None => obj_set "Input" [] (t_byCategory t)
                       end)
                      (t_byType t) (t_componentColors t) (t_newCache t)).
  { unfold addInputArea. rewrite Hstyling, Htruthy. reflexivity. }
  rewrite Hcomponents, HbyType, Hnames, Harea.
  cbn [t_components t_byType].
  split; [apply obj_get_set_same|].
  split; [reflexivity|].
  split; [|split].
  - intros Hin. apply Hfresh.
    eapply Permutation_in; [|exact Hin].
    rewrite (Permutation_map r_name (sortByName_perm E (crs ++ brs))).
    rewrite !map_app.
    rewrite (names_of_results _ _ _ _ _ _ Hcs), (names_of_results _ _ _ _ _ _ Hbs).
    reflexivity.
  - rewrite Hcomp. intros Hin. apply Hfresh. rewrite map_app.
    apply in_or_app. left. exact Hin.
  - intros name Hin. rewrite obj_has_set.
    rewrite Hcomp in Hin. apply Hkeys in Hin. rewrite Hin. apply orb_true_r.
Qed.

Lemma synthetic_InputArea_witness :
  exists g,
    generateRegistry registryEnv = Ok g /\
    obj_get "InputArea" (components (registry g))
    = Some (syntheticInputArea (JObj [("height", JNum 80)])) /\
    ~ In "InputArea" (byName (search (registry g))) /\
    ~ In "InputArea" (component (byType (search (registry g)))).
Proof.
  destruct (synthetic_InputArea registryEnv [] componentResults blockResults
              (JObj [("height", JNum 80)]))
    as [g [Hg [Hget [_ [HbyName [HbyType _]]]]]].
  - reflexivity.
  - unfold componentResults. simpl discoverComponents.
    repeat (constructor; [vm_compute; reflexivity|]). constructor.
  - unfold blockResults. simpl discoverBlocks.
    repeat (constructor; [vm_compute; reflexivity|]). constructor.
  - reflexivity.
  - reflexivity.
  - simpl. intros [H|[H|[H|[]]]]; discriminate H.
  - exists g. auto.
Defined.

(** * The styles build *)

Import BuildStyles.

Lemma andThen_Next {A B} (m : Script A) (k : A -> Script B) out out' a :
  m out = (out', Next a) -> andThen m k out = k a out'.
Proof. unfold andThen. intros ->. reflexivity. Qed.

(** C8: if the script gets as far as the Tailwind invocation and the
    invocation throws, the process prints the underlying error and ends
    with exit code 1; nothing of what follows the compile step runs. *)
Theorem css_failure_exits_nonzero W out e :
  copyCssFiles W [] = (out, Next tt) ->
  execSync W (tailwindCommand W) = Throw e ->
  buildStyles W []
  = (out ++ [ConsoleLog "Compiling standalone CSS...";
             Exec (tailwindCommand W);
             ConsoleError "Failed to compile standalone CSS:" e],
     Exit 1%Z)
  /\ (1 <> 0)%Z.
Proof.
  intros Hcopy Hexec. split; [|discriminate].
  unfold buildStyles. rewrite (andThen_Next _ _ _ _ _ Hcopy).
  unfold compileStandalone, andThen, try_, emit, call, process_exit.
  rewrite Hexec. rewrite <- !app_assoc. reflexivity.
Qed.

Lemma css_failure_exits_nonzero_witness :
  exists out,
    buildStyles failingWorld [] = (out, Exit 1%Z) /\
    last out (ConsoleLog "")
    = ConsoleError "Failed to compile standalone CSS:"
                   "Error: Command failed: npx tailwindcss" /\
    ~ In (ConsoleLog "CSS build complete") out.
Proof.
  destruct (css_failure_exits_nonzero failingWorld _
              "Error: Command failed: npx tailwindcss" eq_refl eq_refl)
    as [Hrun _].
  eexists. split; [exact Hrun|]. split; [reflexivity|].
  simpl. intros H.
  repeat (destruct H as [H|H]; [discriminate H|]). exact H.
Defined.

(** * Further properties *)

Import MoreFixtures.

(** ** Intersections *)

Lemma collectFromParts_loop E depth defs parts :
  collectFromParts E (S depth) defs parts = collectEach E depth defs parts [] [].
Proof.
  cbn [collectFromParts].
  generalize (@nil (string * SchemaDef)) (@nil string).
  induction parts as [|part rest IH]; intros properties required; cbn [collectEach].
  - reflexivity.
  - destruct (truthy_opt (d_ref part)).
    + destruct (decodeURIComponent E _); cbn [bind]; try reflexivity.
      destruct (lookupDef defs a) as [[? ? ? ? ? ? [nestedParts|] ? ? ?]|]; try apply IH.
      destruct (collectFromParts E depth defs nestedParts); cbn [bind]; try reflexivity.
      apply IH.
    + destruct (d_properties part); apply IH.
Qed.

Lemma collectEach_cons E depth defs part rest properties required :
  collectEach E depth defs (part :: rest) properties required
  = (c <- collectEach E depth defs [part] properties required ;;
     collectEach E depth defs rest (c_properties c) (c_required c)).
Proof.
  cbn [collectEach].
  destruct (truthy_opt (d_ref part)).
  - destruct (decodeURIComponent E _); cbn [bind]; try reflexivity.
    destruct (lookupDef defs a) as [[? ? ? ? ? ? [nestedParts|] ? ? ?]|]; try reflexivity.
    destruct (collectFromParts E depth defs nestedParts); reflexivity.
  - destruct (d_properties part); reflexivity.
Qed.

Lemma obj_has_nil {V} name : obj_has name (@nil (string * V)) = false.
Proof. reflexivity. Qed.

Lemma collectEach_one_acc E depth defs part properties required c :
  collectEach E depth defs [part] properties required = Ok c ->
  exists cp,
    collectEach E depth defs [part] [] [] = Ok cp /\
    (forall name,
        obj_has name (c_properties c)
        = obj_has name properties || obj_has name (c_properties cp)) /\
    c_required c = required ++ c_required cp.
Proof.
  cbn [collectEach].
  destruct (truthy_opt (d_ref part)).
  - destruct (decodeURIComponent E _) as [refName| |]; cbn [bind]; try discriminate.
    destruct (lookupDef defs refName) as [[? ? ? ? ? ? allOf ps rs ?]|].
    + destruct allOf as [nestedParts|].
      * destruct (collectFromParts E depth defs nestedParts) as [nested| |];
          cbn [bind]; try discriminate.
        intros [= <-]. eexists. split; [reflexivity|]. cbn [c_properties c_required].
        split.
        -- intros name. destruct ps; rewrite ?obj_has_spread, ?obj_has_nil;
             repeat match goal with |- context [obj_has ?n ?o] =>
               destruct (obj_has n o) end; reflexivity.
        -- destruct rs; rewrite ?app_nil_l, <- ?app_assoc; reflexivity.
      * intros [= <-]. eexists. split; [reflexivity|]. cbn [c_properties c_required].
        split.
        -- intros name. destruct ps; rewrite ?obj_has_spread, ?obj_has_nil;
             repeat match goal with |- context [obj_has ?n ?o] =>
               destruct (obj_has n o) end; reflexivity.
        -- destruct rs; rewrite ?app_nil_l, ?app_nil_r; reflexivity.
    + intros [= <-]. eexists. split; [reflexivity|]. cbn [c_properties c_required].
      split; [intros name; rewrite obj_has_nil, orb_false_r | rewrite app_nil_r];
        reflexivity.
  - destruct (d_properties part) as [ps|].
    + intros [= <-]. eexists. split; [reflexivity|]. cbn [c_properties c_required].
      split.
      * intros name. rewrite !obj_has_spread, obj_has_nil. reflexivity.
      * destruct (d_required part); rewrite ?app_nil_l, ?app_nil_r; reflexivity.
    + intros [= <-]. eexists. split; [reflexivity|]. cbn [c_properties c_required].
      split; [intros name; rewrite obj_has_nil, orb_false_r | rewrite app_nil_r];
        reflexivity.
Qed.

Lemma collectEach_parts E depth defs parts :
  forall properties required c,
    collectEach E depth defs parts properties required = Ok c ->
    (forall name,
        obj_has name (c_properties c) = true <->
        obj_has name properties = true \/
        exists part cp,
          In part parts /\
          collectFromParts E (S depth) defs [part] = Ok cp /\
          obj_has name (c_properties cp) = true) /\
    (forall name,
        In name (c_required c) <->
        In name required \/
        exists part cp,
          In part parts /\
          collectFromParts E (S depth) defs [part] = Ok cp /\
          In name (c_required cp)).
Proof.
  induction parts as [|part rest IH]; intros properties required c H.
  - cbn [collectEach] in H. injection H as <-. cbn [c_properties c_required].
    split; intros name; (split; [auto | intros [Hl | [? [? [[] _]]]]; exact Hl]).
  - rewrite collectEach_cons in H. inv_bind H.
    destruct (collectEach_one_acc _ _ _ _ _ _ _ Hx) as [cp [Hcp [Hprops Hreq]]].
    rewrite <- collectFromParts_loop in Hcp.
    destruct (IH _ _ _ H) as [IHp IHr].
    split; intros name.
    + rewrite IHp, Hprops, orb_true_iff. split.
      * intros [[Hl | Hl] | [part' [cp' [Hin Hrest]]]]; [left; exact Hl | |].
        -- right. exists part, cp. split; [left; reflexivity | auto].
        -- right. exists part', cp'. split; [right; exact Hin | exact Hrest].
      * intros [Hl | [part' [cp' [[<- | Hin] [Hc Hhas]]]]].
        -- left. left. exact Hl.
        -- left. right. rewrite Hcp in Hc. injection Hc as <-. exact Hhas.
        -- right. exists part', cp'. auto.
    + rewrite IHr, Hreq, in_app_iff. split.
      * intros [[Hl | Hl] | [part' [cp' [Hin Hrest]]]]; [left; exact Hl | |].
        -- right. exists part, cp. split; [left; reflexivity | auto].
        -- right. exists part', cp'. split; [right; exact Hin | exact Hrest].
      * intros [Hl | [part' [cp' [[<- | Hin] [Hc Hhas]]]]].
        -- left. left. exact Hl.
        -- left. right. rewrite Hcp in Hc. injection Hc as <-. exact Hhas.
        -- right. exists part', cp'. auto.
Qed.

(** X1: when the props type resolves to an intersection (allOf) and the
    extraction goes through, the emitted map has the property names of all
    branches' collected shapes (those that the props filter lets through),
    and a prop is marked required iff at least one branch lists it as
    required. *)
Theorem intersection_merge E config schema mainDef0 mainDef parts props :
  createSchema E (join (cfg_sourceDir config) (getSourceFile config))
               (getPropsType config) = Ok schema ->
  lookupDef (s_definitions schema) (getPropsType config) = Some mainDef0 ->
  followRefs E (tableSize (s_definitions schema)) (s_definitions schema) mainDef0
    = Ok mainDef ->
  d_allOf mainDef = Some parts ->
  tryGenerateProps E config = Ok props ->
  let shapeOf part :=
    collectFromParts E (stackDepth (s_definitions schema)) (s_definitions schema) [part] in
  (forall name,
      obj_has name props = true <->
      (exists part cp,
          In part parts /\ shapeOf part = Ok cp /\ obj_has name (c_properties cp) = true) /\
      shouldSkipProp E name (CLI_FLAGS E) = false) /\
  (forall name p,
      obj_get name props = Some p ->
      (p_required p = Some true <->
       exists part cp,
         In part parts /\ shapeOf part = Ok cp /\ In name (c_required cp))).
Proof.
  intros Hschema Hmain Hfollow HallOf Htry. cbv zeta.
  unfold tryGenerateProps in Htry. rewrite Hschema in Htry. cbn [bind] in Htry.
  unfold propsFromSchema in Htry. rewrite Hmain, Hfollow in Htry. cbn [bind] in Htry.
  inv_bind Htry. rename x into all. unfold collectShape in Hx. rewrite HallOf in Hx.
  unfold stackDepth in *.
  rewrite collectFromParts_loop in Hx.
  destruct (collectEach_parts _ _ _ _ _ _ _ Hx) as [Hp Hr].
  split.
  - intros name. rewrite (convertProps_has _ _ _ _ _ _ _ name Htry).
    rewrite obj_has_nil. cbn [orb]. rewrite andb_true_iff, negb_true_iff, Hp.
    rewrite obj_has_nil. split.
    + intros [[Hf | Hex] Hskip]; [discriminate | auto].
    + intros [Hex Hskip]. auto.
  - intros name p Hget.
    destruct (convertProps_flags _ _ _ _ _ _ _ _ _ Htry Hget) as [Hold | Hflags];
      [discriminate Hold|].
    unfold flagsOf in Hflags.
    destruct (includes (c_required all) name) eqn:Hinc; injection Hflags as -> _.
    + apply includes_In, Hr in Hinc. destruct Hinc as [[] | Hex].
      split; auto.
    + split; [discriminate|].
      intros Hex. assert (Hin : In name (c_required all)) by (apply Hr; right; exact Hex).
      apply includes_In in Hin. congruence.
Qed.

Lemma intersection_merge_witness :
  exists props id className title footer,
    generatePropsFromType moreEnv Card = Ok props /\
    obj_keys props = ["id"; "className"; "title"; "footer"] /\
    obj_get "id" props = Some id /\ p_required id = Some true /\
    obj_get "className" props = Some className /\ p_optional className = Some true /\
    obj_get "title" props = Some title /\ p_required title = Some true /\
    obj_get "footer" props = Some footer /\ p_optional footer = Some true.
Proof.
  destruct (intersection_merge moreEnv Card cardSchema
              (intersectionOf [refTo "BaseProps"; cardInline])
              (intersectionOf [refTo "BaseProps"; cardInline])
              [refTo "BaseProps"; cardInline]
              _ eq_refl eq_refl eq_refl eq_refl eq_refl) as [_ Hflags].
  eexists. eexists. eexists. eexists. eexists.
  split; [reflexivity|]. split; [reflexivity|].
  split; [reflexivity|]. split.
  - apply (proj2 (Hflags "id" _ eq_refl)).
    exists (refTo "BaseProps"). eexists.
    split; [left; reflexivity|]. split; [reflexivity|]. left. reflexivity.
  - split; [reflexivity|]. split; [reflexivity|]. split; [reflexivity|]. split.
    + apply (proj2 (Hflags "title" _ eq_refl)).
      exists cardInline. eexists.
      split; [right; left; reflexivity|]. split; [reflexivity|]. left. reflexivity.
    + split; reflexivity.
Defined.

(** ** Aliases *)

Lemma followRefs_result E defs :
  forall fuel def def',
    followRefs E fuel defs def = Ok def' ->
    (def' = def \/ exists name, lookupDef defs name = Some def') /\
    (isBareAlias def' = false \/
     exists refName,
       decodeURIComponent E
         (lastSegment (match d_ref def' with Some r => r | None => "" end)) = Ok refName /\
       lookupDef defs refName = None).
Proof.
  induction fuel as [|fuel IH]; intros def def' H; cbn [followRefs] in H;
    fold (isBareAlias def) in H; destruct (isBareAlias def) eqn:Halias;
    try discriminate;
    try (injection H as <-; split; [left; reflexivity | left; exact Halias]).
  inv_bind H. rename x into refName.
  destruct (lookupDef defs refName) as [refDef|] eqn:Hlookup.
  - destruct (IH _ _ H) as [[-> | Hfrom] Hstop]; split; try exact Hstop.
    + right. exists refName. exact Hlookup.
    + right. exact Hfrom.
  - injection H as <-. split; [left; reflexivity|].
    right. exists refName. auto.
Qed.

(** X2: the loop that follows $ref aliases from the main definition ends
    either on the definition it started from or on an entry of the
    definitions table, and what it ends on is not a bare alias any more,
    unless the alias names a type that the table does not define. *)
Theorem alias_chain_resolved E config schema mainDef0 mainDef :
  lookupDef (s_definitions schema) (getPropsType config) = Some mainDef0 ->
  followRefs E (tableSize (s_definitions schema)) (s_definitions schema) mainDef0
    = Ok mainDef ->
  (exists name, lookupDef (s_definitions schema) name = Some mainDef) /\
  (isBareAlias mainDef = false \/
   exists refName,
     decodeURIComponent E
       (lastSegment (match d_ref mainDef with Some r => r | None => "" end)) = Ok refName /\
     lookupDef (s_definitions schema) refName = None).
Proof.
  intros Hmain Hfollow.
  destruct (followRefs_result _ _ _ _ _ Hfollow) as [[-> | Hfrom] Hstop].
  - split; [exists (getPropsType config); exact Hmain | exact Hstop].
  - split; [exact Hfrom | exact Hstop].
Qed.

Lemma alias_chain_resolved_witness :
  exists open,
    generatePropsFromType moreEnv Panel = Ok [("open", open)] /\
    p_type open = "boolean" /\
    (exists name,
        lookupDef (s_definitions panelSchema) name
        = Some (object [("open", typed "boolean")] ["open"])).
Proof.
  destruct (alias_chain_resolved moreEnv Panel panelSchema (refTo "PanelBase")
              (object [("open", typed "boolean")] ["open"]) eq_refl eq_refl)
    as [Hentry _].
  eexists. split; [reflexivity|]. split; [reflexivity | exact Hentry].
Defined.

Lemma followRefs_self_alias E defs name def :
  isBareAlias def = true ->
  decodeURIComponent E (lastSegment (match d_ref def with Some r => r | None => "" end))
  = Ok name ->
  lookupDef defs name = Some def ->
  forall fuel, followRefs E fuel defs def = Diverge.
Proof.
  intros Halias Hdecode Hlookup.
  induction fuel as [|fuel IH]; cbn [followRefs]; fold (isBareAlias def);
    rewrite Halias; [reflexivity|].
  rewrite Hdecode. cbn [bind]. rewrite Hlookup. exact IH.
Qed.

(** X3: a props type that is a bare alias of itself makes the alias loop
    run for ever: no props and no fallback come back, neither from
    [generatePropsFromType] (the try/catch does not help) nor from the
    regeneration of the component. *)
Theorem alias_cycle_never_returns E config schema mainDef :
  createSchema E (join (cfg_sourceDir config) (getSourceFile config))
               (getPropsType config) = Ok schema ->
  lookupDef (s_definitions schema) (getPropsType config) = Some mainDef ->
  isBareAlias mainDef = true ->
  decodeURIComponent E
    (lastSegment (match d_ref mainDef with Some r => r | None => "" end))
  = Ok (getPropsType config) ->
  generatePropsFromType E config = Diverge /\
  forall input sourcePath sourceHash storyHash,
    in_config input = config ->
    regenerateComponent E input sourcePath sourceHash storyHash = Diverge.
Proof.
  intros Hschema Hmain Halias Hdecode.
  assert (Hgen : generatePropsFromType E config = Diverge).
  { unfold generatePropsFromType, tryGenerateProps. rewrite Hschema. cbn [bind].
    unfold propsFromSchema. rewrite Hmain.
    rewrite (followRefs_self_alias E _ _ _ Halias Hdecode Hmain). reflexivity. }
  split; [exact Hgen|].
  intros input sourcePath sourceHash storyHash <-.
  unfold regenerateComponent. rewrite Hgen. reflexivity.
Qed.

Lemma alias_cycle_never_returns_witness :
  generatePropsFromType moreEnv Loop = Diverge.
Proof.
  exact (proj1 (alias_cycle_never_returns moreEnv Loop loopSchema (refTo "LoopProps")
                  eq_refl eq_refl eq_refl eq_refl)).
Defined.

(** ** Enums behind a $ref *)



(** ** Type strings of unions *)

Lemma jsonSchemaTypeToString_union E def types :
  truthy_opt (d_ref def) = false ->
  d_enum def = None ->
  isArrayType (d_type def) = false ->
  firstSome (d_anyOf def) (d_oneOf def) = Some types ->
  jsonSchemaTypeToString E def
  = (typeStrings <- mapM (jsonSchemaTypeToString E) types ;;
     if existsb (str_includes "React") (filter notUndefinedOrNull typeStrings)
     then Ok "ReactNode"
     else Ok (String.concat " | " (filter notUndefinedOrNull typeStrings))).
Proof.
  destruct def as [ref enum type items anyOf oneOf allOf ps rs description].
  cbn [d_ref d_enum d_type d_anyOf d_oneOf]. intros Href -> Harray Hunion.
  cbn [jsonSchemaTypeToString]. rewrite Href, Harray, Hunion.
  match goal with
  | |- bind (?F types) _ = _ =>
      assert (HF : forall l, F l = mapM (jsonSchemaTypeToString E) l)
  end.
  { induction l as [|t l IH]; [reflexivity|].
    cbn [mapM]. rewrite <- IH. reflexivity. }
  rewrite HF. reflexivity.
Qed.

Lemma mapM_Forall2 {A B} (f : A -> result B) l :
  forall bs, mapM f l = Ok bs <-> Forall2 (fun a b => f a = Ok b) l bs.
Proof.
  induction l as [|a l IH]; intros bs; cbn [mapM].
  - split; [intros [= <-]; constructor | intros H; inversion H; reflexivity].
  - split.
    + intros H. inv_bind H. inv_bind H. injection H as <-.
      constructor; [exact Hx | apply IH; exact Hx0].
    + intros H. inversion H as [|? b ? bs' Hb Hbs]; subst.
      rewrite Hb. cbn [bind]. apply IH in Hbs. rewrite Hbs. reflexivity.
Qed.

(** X5: a union (anyOf/oneOf) all of whose members stringify to "null" or
    "undefined" (an empty union too) gets the empty string as its type:
    the filter drops every member and the join of nothing is "". *)
Theorem nullish_union_has_empty_type E def types :
  truthy_opt (d_ref def) = false ->
  d_enum def = None ->
  isArrayType (d_type def) = false ->
  firstSome (d_anyOf def) (d_oneOf def) = Some types ->
  Forall (fun t => jsonSchemaTypeToString E t = Ok "null"
                   \/ jsonSchemaTypeToString E t = Ok "undefined") types ->
  jsonSchemaTypeToString E def = Ok "".
Proof.
  intros Href Henum Harray Hunion Hall.
  rewrite (jsonSchemaTypeToString_union E def types Href Henum Harray Hunion).
  assert (Hts : exists typeStrings,
             mapM (jsonSchemaTypeToString E) types = Ok typeStrings /\
             filter notUndefinedOrNull typeStrings = []).
  { clear - Hall.
    induction Hall as [|t types Ht _ [ts [Hts Hfilter]]].
    - exists []. split; reflexivity.
    - cbn [mapM]. rewrite Hts.
      destruct Ht as [-> | ->]; cbn [bind]; eexists; (split; [reflexivity|]);
        cbn [filter]; exact Hfilter. }
  destruct Hts as [typeStrings [Hmap Hfilter]].
  rewrite Hmap. cbn [bind]. rewrite Hfilter. reflexivity.
Qed.

Lemma nullish_union_has_empty_type_witness :
  jsonSchemaTypeToString plainEnv (unionOf [typed "null"; typed "undefined"]) = Ok "".
Proof.
  apply (nullish_union_has_empty_type plainEnv
           (unionOf [typed "null"; typed "undefined"])
           [typed "null"; typed "undefined"]); try reflexivity.
  apply Forall_cons; [left; reflexivity|].
  apply Forall_cons; [right; reflexivity|].
  apply Forall_nil.
Defined.

(** ** The fallback map *)

(** X6: no prop of the fallback map carries a required or optional flag, a
    classes map or a stateClasses map; and each of its props other than
    className and children is an enum whose default is the component's
    default for it when that default is a non-empty string, and is absent
    otherwise. *)
Theorem fallback_props_shape config name p :
  obj_get name (generatePropsFromVariantsOnly config) = Some p ->
  p_required p = None /\ p_optional p = None /\
  p_classes p = None /\ p_stateClasses p = None /\
  (name <> "className" -> name <> "children" ->
   In name (obj_keys (cfg_variants config)) /\
   p_type p = "enum" /\
   p_default p = match obj_get name (cfg_defaults config) with
                 | Some d => if truthy d then Some d else None
                 | None => None
                 end).
Proof.
  unfold generatePropsFromVariantsOnly. intros Hget.
  destruct (String.eqb_spec name "children") as [->|Hchildren].
  { rewrite obj_get_set_same in Hget. injection Hget as <-.
    do 4 (split; [reflexivity|]). intros _ Hne. exfalso. apply Hne. reflexivity. }
  rewrite obj_get_set_other in Hget by exact Hchildren.
  destruct (String.eqb_spec name "className") as [->|HclassName].
  { rewrite obj_get_set_same in Hget. injection Hget as <-.
    do 4 (split; [reflexivity|]). intros Hne. exfalso. apply Hne. reflexivity. }
  rewrite obj_get_set_other in Hget by exact HclassName.
  destruct (variantsOnly_fold config (cfg_variants config) [] name) as [Hin Hout].
  cbv zeta in Hin, Hout.
  destruct (in_dec string_dec name (obj_keys (cfg_variants config))) as [Hkey | Hkey].
  - destruct (Hin Hkey) as [variantDef [_ Hprop]].
    rewrite Hprop in Hget. injection Hget as <-.
    do 4 (split; [reflexivity|]). intros _ _.
    split; [exact Hkey|]. split; reflexivity.
  - rewrite (Hout Hkey) in Hget. discriminate Hget.
Qed.

Lemma fallback_props_shape_witness :
  exists layout,
    obj_get "layout" (generatePropsFromVariantsOnly Table) = Some layout /\
    p_required layout = None /\ p_optional layout = None /\
    p_default layout = Some "auto".
Proof.
  eexists. split; [reflexivity|].
  destruct (fallback_props_shape Table "layout" _ eq_refl)
    as [Hr [Ho [_ [_ Hvariant]]]].
  split; [exact Hr|]. split; [exact Ho|].
  destruct Hvariant as [_ [_ Hd]]; [discriminate | discriminate | exact Hd].
Defined.

(** ** Additional props and type overrides *)

Lemma injectAdditionalProps_cons kv rest props :
  injectAdditionalProps (kv :: rest) props
  = injectAdditionalProps rest (injectOne props kv).
Proof. reflexivity. Qed.

Lemma injectOne_get props k ps name :
  obj_get name (injectOne props (k, ps))
  = if String.eqb name k
    then match obj_get k props with
         | None => Some ps
         | Some existing =>
             Some (let existing :=
                     if truthy (p_type ps) then set_type (p_type ps) existing
                     else existing in
                   match p_description ps with
                   | Some d => if truthy d then set_description d existing else existing
                   | None => existing
                   end)
         end
    else obj_get name props.
Proof.
  unfold injectOne, injectAdditionalProps. cbn [fold_left].
  destruct (obj_get k props) as [existing|]; rewrite obj_get_set; reflexivity.
Qed.

Lemma injectAdditionalProps_other additionalProps :
  forall props name,
    obj_has name additionalProps = false ->
    obj_get name (injectAdditionalProps additionalProps props) = obj_get name props.
Proof.
  induction additionalProps as [|[k ps] rest IH]; intros props name Hname;
    [reflexivity|].
  rewrite injectAdditionalProps_cons.
  assert (Hcons : String.eqb name k = false /\ obj_has name rest = false).
  { unfold obj_has in *. cbn [obj_get] in Hname.
    destruct (String.eqb name k); [discriminate | auto]. }
  destruct Hcons as [Hk Hrest].
  rewrite (IH _ _ Hrest), injectOne_get, Hk. reflexivity.
Qed.

Lemma injectAdditionalProps_keeps additionalProps :
  forall props name p,
    obj_get name props = Some p ->
    exists p',
      obj_get name (injectAdditionalProps additionalProps props) = Some p' /\
      keepsAllButTypeAndDescription p p'.
Proof.
  induction additionalProps as [|[k ps] rest IH]; intros props name p Hget.
  - exists p. split; [exact Hget | repeat split].
  - rewrite injectAdditionalProps_cons.
    assert (Hone : exists p1, obj_get name (injectOne props (k, ps)) = Some p1 /\
                              keepsAllButTypeAndDescription p p1).
    { rewrite injectOne_get. destruct (String.eqb_spec name k) as [->|Hne].
      - rewrite Hget. eexists. split; [reflexivity|].
        destruct (truthy (p_type ps)), (p_description ps) as [d|];
          [destruct (truthy d) | | destruct (truthy d) | ]; repeat split.
      - exists p. split; [exact Hget | repeat split]. }
    destruct Hone as [p1 [Hp1 Hkeep1]].
    destruct (IH _ _ _ Hp1) as [p' [Hp' Hkeep']].
    exists p'. split; [exact Hp'|].
    unfold keepsAllButTypeAndDescription in *.
    destruct Hkeep1 as [A1 [A2 [A3 [A4 [A5 [A6 A7]]]]]].
    destruct Hkeep' as [B1 [B2 [B3 [B4 [B5 [B6 B7]]]]]].
    repeat split; congruence.
Qed.

Lemma injectAdditionalProps_has additionalProps :
  forall props name,
    obj_has name (injectAdditionalProps additionalProps props)
    = obj_has name props || obj_has name additionalProps.
Proof.
  induction additionalProps as [|[k ps] rest IH]; intros props name.
  - rewrite obj_has_nil, orb_false_r. reflexivity.
  - rewrite injectAdditionalProps_cons, IH.
    unfold obj_has at 1 4. rewrite injectOne_get. cbn [obj_get].
    fold (obj_has name rest).
    destruct (String.eqb name k) eqn:Hk.
    + destruct (obj_get k props); rewrite orb_true_r; reflexivity.
    + fold (obj_has name props). reflexivity.
Qed.

(** X7: injecting a component's additional props never removes a prop and
    never touches the flags, values, maps or default of a prop that the
    extraction produced (only its type and description); the resulting keys
    are those of the extracted props and of the table; and with distinct
    table keys a prop that was missing is added as the table gives it. *)
Theorem additional_props_injection additionalProps props :
  (forall name,
      obj_has name (injectAdditionalProps additionalProps props)
      = obj_has name props || obj_has name additionalProps) /\
  (forall name p,
      obj_get name props = Some p ->
      exists p',
        obj_get name (injectAdditionalProps additionalProps props) = Some p' /\
        keepsAllButTypeAndDescription p p' /\
        (obj_has name additionalProps = false -> p' = p)) /\
  (NoDup (obj_keys additionalProps) ->
   forall name ps,
     In (name, ps) additionalProps ->
     obj_get name props = None ->
     obj_get name (injectAdditionalProps additionalProps props) = Some ps).
Proof.
  split; [intros name; apply injectAdditionalProps_has|]. split.
  - intros name p Hget.
    destruct (injectAdditionalProps_keeps additionalProps _ _ _ Hget) as [p' [Hp' Hkeep]].
    exists p'. split; [exact Hp'|]. split; [exact Hkeep|].
    intros Hother.
    rewrite (injectAdditionalProps_other _ _ _ Hother), Hget in Hp'.
    injection Hp' as <-. reflexivity.
  - revert props.
    induction additionalProps as [|[k ps0] rest IH]; intros props Hnodup name ps Hin Hnone;
      [destruct Hin|].
    cbn [obj_keys map fst] in Hnodup. inversion Hnodup as [|? ? Hfresh Hrest]; subst.
    rewrite injectAdditionalProps_cons.
    destruct Hin as [[= -> ->] | Hin].
    + rewrite injectAdditionalProps_other.
      * rewrite injectOne_get, String.eqb_refl, Hnone. reflexivity.
      * destruct (obj_has name rest) eqn:Hhas; [|reflexivity].
        apply obj_has_keys in Hhas. contradiction.
    + apply IH; [exact Hrest | exact Hin|].
      rewrite injectOne_get.
      destruct (String.eqb_spec name k) as [->|Hne]; [|exact Hnone].
      exfalso. apply Hfresh. change (In k (map fst rest)).
      apply in_map_iff. exists (k, ps). auto.
Qed.

Lemma obj_keys_set_existing {V} k (v v0 : V) (o : obj V) :
  obj_get k o = Some v0 -> obj_keys (obj_set k v o) = obj_keys o.
Proof.
  induction o as [|[k1 v1] o IH]; cbn [obj_get obj_set]; [discriminate|].
  destruct (String.eqb_spec k k1) as [->|Hne]; [reflexivity|].
  intros H. cbn [obj_keys map fst]. f_equal. apply IH. exact H.
Qed.

Lemma applyTypeOverrides_cons kv rest props :
  applyTypeOverrides (kv :: rest) props
  = applyTypeOverrides rest (applyTypeOverrides [kv] props).
Proof. reflexivity. Qed.

Lemma applyTypeOverrides_one k newType props name :
  obj_keys (applyTypeOverrides [(k, newType)] props) = obj_keys props /\
  obj_get name (applyTypeOverrides [(k, newType)] props)
  = match obj_get name props with
    | Some p => Some (if String.eqb name k then set_type newType p else p)
    | None => None
    end.
Proof.
  unfold applyTypeOverrides. cbn [fold_left].
  destruct (obj_get k props) as [existing|] eqn:Hk.
  - split; [eapply obj_keys_set_existing; exact Hk|].
    rewrite obj_get_set.
    destruct (String.eqb_spec name k) as [->|Hne]; [rewrite Hk; reflexivity|].
    destruct (obj_get name props); reflexivity.
  - split; [reflexivity|].
    destruct (String.eqb_spec name k) as [->|Hne]; [rewrite Hk; reflexivity|].
    destruct (obj_get name props); reflexivity.
Qed.

(** X8: type overrides never add, remove or reorder props: the keys stay
    as they are; an override for a name that is no prop is ignored; a prop
    keeps everything but its type, which (with distinct override keys) is
    the override's when there is one and the old one otherwise. *)
Theorem type_overrides_only_retype typeOverrides :
  forall props,
    obj_keys (applyTypeOverrides typeOverrides props) = obj_keys props /\
    (forall name p,
        obj_get name props = Some p ->
        exists newType,
          obj_get name (applyTypeOverrides typeOverrides props)
          = Some (set_type newType p) /\
          (obj_has name typeOverrides = false -> newType = p_type p) /\
          (NoDup (obj_keys typeOverrides) ->
           forall t, In (name, t) typeOverrides -> newType = t)).
Proof.
  induction typeOverrides as [|[k t0] rest IH]; intros props.
  - split; [reflexivity|]. intros name p Hget. exists (p_type p).
    change (applyTypeOverrides [] props) with props.
    split; [rewrite Hget; destruct p; reflexivity|].
    split; [reflexivity | intros _ t []].
  - rewrite applyTypeOverrides_cons.
    destruct (IH (applyTypeOverrides [(k, t0)] props)) as [Hkeys Hprops].
    split.
    + rewrite Hkeys. apply (applyTypeOverrides_one k t0 props "").
    + intros name p Hget.
      pose proof (proj2 (applyTypeOverrides_one k t0 props name)) as Hone.
      rewrite Hget in Hone.
      destruct (Hprops _ _ Hone) as [newType [Hnew [Hnone Hsome]]].
      exists newType. split.
      * rewrite Hnew. destruct (String.eqb name k), p; reflexivity.
      * assert (Hcons : obj_has name ((k, t0) :: rest)
                        = String.eqb name k || obj_has name rest)
          by (unfold obj_has; cbn [obj_get]; destruct (String.eqb name k); reflexivity).
        split.
        -- rewrite Hcons. intros Hfalse. apply orb_false_iff in Hfalse.
           destruct Hfalse as [Hk Hrest]. rewrite Hk in Hnone. exact (Hnone Hrest).
        -- intros Hnodup t Hin. cbn [obj_keys map fst] in Hnodup.
           inversion Hnodup as [|? ? Hfresh Hrest]; subst.
           destruct Hin as [[= -> ->] | Hin].
           ++ rewrite String.eqb_refl in Hnone.
              assert (Hnot : obj_has name rest = false).
              { destruct (obj_has name rest) eqn:Hhas; [|reflexivity].
                apply obj_has_keys in Hhas. contradiction. }
              exact (Hnone Hnot).
           ++ exact (Hsome Hrest t Hin).
Qed.

(** ** A unit and the cache *)

Lemma processComponent_entry E input r :
  processComponent E input = Ok r ->
  let config := in_config input in
  let sourcePath := join (cfg_sourceDir config) (getSourceFile config) in
  exists generatedAt,
    r = mkResult (cfg_name config) (cfg_category config) (r_schema r)
                 (extractSemanticColors E sourcePath) (r_cached r)
                 (mkEntry (cfg_name config) (hashFileContent E sourcePath)
                          (hashFileContent E (storyPathOf config))
                          (CACHE_VERSION E) generatedAt (r_schema r)) /\
    (generatedAt = Date_now E \/ generatedAt <> 0%Z).
Proof.
  unfold processComponent. cbv zeta.
  destruct (getCachedComponent _ _ _ _ _ _) as [cachedMetadata|].
  - intros [= <-]. eexists. split; [reflexivity|].
    destruct (obj_get _ _) as [entry|]; [|left; reflexivity].
    destruct (Z.eqb_spec (ce_generatedAt entry) 0); [left; reflexivity | right; assumption].
  - unfold regenerateComponent. intros H. inv_bind H. injection H as <-.
    eexists. split; [reflexivity | left; reflexivity].
Qed.

(** With the cache module as modelled above: with caching on, a unit's cache entry stored under the component's
    name (as the assembler stores it) makes the next run of the unit, on
    unchanged files, a cache hit that returns the same schema, colours and
    cache entry, timestamp included. *)
Theorem cache_round_trip E input r cache :
  noCache (CLI_FLAGS E) = false ->
  processComponent E input = Ok r ->
  processComponent E
    (mkInput (in_config input) (in_variantConstants input) (in_storyExamples input)
             (storeEntry (cfg_name (in_config input)) (r_cacheEntry r) cache))
  = Ok (mkResult (r_name r) (r_category r) (r_schema r) (r_colors r) true
                 (r_cacheEntry r)).
Proof.
  intros Hflag Hrun.
  destruct (processComponent_entry E input r Hrun) as [generatedAt [Hr Hat]].
  cbv zeta in Hr. rewrite Hr. cbn [r_name r_category r_schema r_colors r_cacheEntry].
  unfold processComponent, getCachedComponent, storeEntry. cbv zeta.
  cbn [in_config in_cache cache_entries]. rewrite Hflag, obj_get_set_same.
  unfold isValid. cbn [ce_cacheVersion ce_sourceHash ce_storyHash ce_metadata ce_generatedAt].
  rewrite Z.eqb_refl, !String.eqb_refl. cbn [andb].
  do 3 f_equal.
  destruct (Z.eqb_spec generatedAt 0) as [Hzero|Hnz]; [|reflexivity].
  destruct Hat as [Hnow | Hne]; [congruence | contradiction].
Qed.

Lemma cache_round_trip_witness :
  exists r,
    processComponent plainEnv (mkInput Widget [] [] emptyCache) = Ok r /\
    r_cached r = false /\
    processComponent plainEnv
      (mkInput Widget [] [] (storeEntry "Widget" (r_cacheEntry r) emptyCache))
    = Ok (mkResult (r_name r) (r_category r) (r_schema r) (r_colors r) true
                   (r_cacheEntry r)).
Proof.
  exists (hd (mkResult "" "" widgetCachedSchema [] false widgetEntry)
             (resultsOf plainEnv [Widget])).
  split; [vm_compute; reflexivity|]. split; [vm_compute; reflexivity|].
  apply (cache_round_trip plainEnv (mkInput Widget [] [] emptyCache) _ emptyCache eq_refl).
  vm_compute. reflexivity.
Defined.

(** ** Sub-components *)

(** X21: a regenerated schema has a subComponents map exactly when the
    detector finds sub-components; the map is then not empty and its keys
    are the detected names. *)
Theorem subComponents_never_empty E input sourcePath sourceHash storyHash r :
  regenerateComponent E input sourcePath sourceHash storyHash = Ok r ->
  match cs_subComponents (r_schema r) with
  | None => detectSubComponents E sourcePath = []
  | Some schemas =>
      schemas <> [] /\
      detectSubComponents E sourcePath <> [] /\
      forall name,
        obj_has name schemas = true <->
        In name (map sc_name (detectSubComponents E sourcePath))
  end.
Proof.
  unfold regenerateComponent. intros H. inv_bind H. injection H as <-.
  cbn [r_schema cs_subComponents].
  assert (Hfold : forall detected acc name,
             obj_has name
               (fold_left
                  (fun schemas subComp =>
                     obj_set (sc_name subComp) (subComponentSchema E sourcePath subComp)
                             schemas)
                  detected acc) = true <->
             obj_has name acc = true \/ In name (map sc_name detected)).
  { induction detected as [|subComp detected IH]; intros acc name; cbn [fold_left map].
    - split; [auto | intros [Hl | []]; exact Hl].
    - rewrite IH, obj_has_set, orb_true_iff, String.eqb_eq. cbn [In].
      split; [intros [[-> | Hl] | Hr] | intros [Hl | [-> | Hr]]]; auto. }
  destruct (detectSubComponents E sourcePath) as [|subComp detected] eqn:Hdetected;
    [reflexivity|].
  split; [|split; [discriminate|]].
  - intros Hempty.
    assert (Hhas : obj_has (sc_name subComp)
                     (fold_left
                        (fun schemas subComp0 =>
                           obj_set (sc_name subComp0)
                                   (subComponentSchema E sourcePath subComp0) schemas)
                        (subComp :: detected) []) = true)
      by (apply Hfold; right; left; reflexivity).
    rewrite Hempty in Hhas. discriminate Hhas.
  - intros name. rewrite Hfold, obj_has_nil.
    split; [intros [Hf | Hin]; [discriminate | exact Hin] | auto].
Qed.

(** ** Isolation of extraction failures *)

Lemma processComponent_never_throws E input e :
  processComponent E input <> Throw e.
Proof.
  unfold processComponent. cbv zeta.
  destruct (getCachedComponent _ _ _ _ _ _); [discriminate|].
  unfold regenerateComponent.
  pose proof (generatePropsFromType_never_throws E (in_config input)) as Hgen.
  destruct (generatePropsFromType E (in_config input)) as [props| e' |];
    cbn [bind]; try discriminate.
  exfalso. exact (Hgen e' eq_refl).
Qed.

Lemma callUnits_fulfilled E variantConstants storyExamples cache batch :
  forall index trace,
    callUnits E variantConstants storyExamples cache index batch trace = Diverge \/
    exists rs trace',
      callUnits E variantConstants storyExamples cache index batch trace
      = Ok (map Ok rs, trace').
Proof.
  induction batch as [|config batch IH]; intros index trace; cbn [callUnits].
  - right. exists [], trace. reflexivity.
  - pose proof (processComponent_never_throws E
                  (mkInput config variantConstants storyExamples cache)) as Hunit.
    destruct (processComponent E _) as [r| e |]; [| exfalso; exact (Hunit e eq_refl) | auto].
    destruct (IH (S index) (trace ++ [UnitStarted index; UnitSettled index]))
      as [-> | [rs [trace' ->]]]; [left; reflexivity|].
    right. exists (r :: rs), trace'. reflexivity.
Qed.

(** X10: an error of the schema extraction in a unit never rejects the
    batch: whatever the generator throws is turned into fallback props
    inside the unit, so the orchestrator does not end in an exception (it
    returns, or a unit never returns). *)
Theorem orchestrator_never_rejects E variantConstants storyExamples cache configs e :
  processComponentsInParallel E configs variantConstants storyExamples cache <> Throw e.
Proof.
  unfold processComponentsInParallel.
  assert (Hloop : forall m i results trace,
             m = length configs - i ->
             batchLoop E variantConstants storyExamples cache configs i results trace
             <> Throw e).
  { induction m as [m IH] using lt_wf_ind. intros i results trace Hm.
    rewrite batchLoop_equation_1.
    destruct (lt_dec i (length configs)) as [Hlt | Hge];
      unfold batchLoop_unfold_clause_1; [|discriminate].
    destruct (callUnits_fulfilled E variantConstants storyExamples cache
                (slice i (i + BATCH_SIZE) configs) i trace)
      as [-> | [rs [trace' ->]]]; [discriminate|].
    rewrite Promise_all_fulfilled.
    apply (IH (length configs - (i + BATCH_SIZE))); [unfold BATCH_SIZE; lia | reflexivity]. }
  apply (Hloop (length configs - 0)). reflexivity.
Qed.

(** ** The assembled tables *)

Lemma generateRegistry_tables E storyExamples crs brs :
  loadDemoExamples E = Ok storyExamples ->
  Forall2 (unitOk E (buildVariantConstants E (discoverComponents E ++ discoverBlocks E))
                  storyExamples (loadCache E))
          (discoverComponents E) crs ->
  Forall2 (unitOk E (buildVariantConstants E (discoverComponents E ++ discoverBlocks E))
                  storyExamples (loadCache E))
          (discoverBlocks E) brs ->
  exists t,
    addBlockResults E (discoverBlocks E)
                    (fold_left addComponentResult crs (emptyTables E)) brs = Ok t /\
    generateRegistry E
    = Ok (mkGenerated
            (mkRegistry "1.0.0" (t_components (addInputArea E t))
               (t_blocks (addInputArea E t))
               (mkSearch (t_byCategory (addInputArea E t))
                         (map r_name (sortByName E (crs ++ brs)))
                         (t_byType (addInputArea E t))))
            (t_componentColors (addInputArea E t))
            (t_newCache t)).
Proof.
  intros Hdemo Hcs Hbs.
  pose proof (names_of_results _ _ _ _ _ _ Hbs) as Hbn.
  assert (Hin : Forall (fun r => In (r_name r) (map cfg_name (discoverBlocks E))) brs).
  { rewrite <- Hbn. apply Forall_forall. intros r Hr. apply in_map. exact Hr. }
  destruct (addBlockResults_ok E (discoverBlocks E) brs Hin
              (fold_left addComponentResult crs (emptyTables E))) as [t [Ht _]].
  exists t. split; [exact Ht|].
  unfold generateRegistry. rewrite Hdemo. cbn [bind].
  rewrite (processComponentsInParallel_ok _ _ _ _ _ _ Hcs). cbn [bind].
  rewrite (processComponentsInParallel_ok _ _ _ _ _ _ Hbs). cbn [bind].
  fold (emptyTables E). rewrite Ht. reflexivity.
Qed.

Lemma pushCategory_get category name byCat c :
  obj_get c (pushCategory category name byCat)
  = if String.eqb c category
    then Some (match obj_get category byCat with
               | Some names => names ++ [name]
               | None => [name]
               end)
    else obj_get c byCat.
Proof.
  unfold pushCategory.
  destruct (obj_get category byCat); rewrite obj_get_set; reflexivity.
Qed.

Lemma extendCategory_step old name names :
  extendCategory (Some (match old with Some ns => ns ++ [name] | None => [name] end)) names
  = extendCategory old (name :: names).
Proof.
  destruct old as [ns|], names as [|n names]; cbn [extendCategory];
    rewrite <- ?app_assoc; reflexivity.
Qed.

Lemma addComponentResults_byCategory crs c :
  forall t,
    obj_get c (t_byCategory (fold_left addComponentResult crs t))
    = extendCategory (obj_get c (t_byCategory t)) (resultNamesIn c crs).
Proof.
  induction crs as [|r crs IH]; intros t; cbn [fold_left].
  - reflexivity.
  - rewrite IH. cbn [addComponentResult t_byCategory]. rewrite pushCategory_get.
    unfold resultNamesIn. cbn [filter]. rewrite (String.eqb_sym c).
    destruct (String.eqb_spec (r_category r) c) as [<-|Hne]; [|reflexivity].
    cbn [map]. apply extendCategory_step.
Qed.

Lemma addBlockResults_byCategory E BLOCKS brs c :
  forall t t',
    addBlockResults E BLOCKS t brs = Ok t' ->
    obj_get c (t_byCategory t')
    = extendCategory (obj_get c (t_byCategory t)) (resultNamesIn c brs).
Proof.
  induction brs as [|r brs IH]; intros t t' H; cbn [addBlockResults] in H.
  - injection H as <-. reflexivity.
  - inv_bind H. rewrite (IH _ _ H).
    unfold addBlockResult in Hx.
    destruct (find _ BLOCKS) as [blockConfig|]; [|discriminate].
    injection Hx as <-. cbn [t_byCategory]. rewrite pushCategory_get.
    unfold resultNamesIn. cbn [filter]. rewrite (String.eqb_sym c).
    destruct (String.eqb_spec (r_category r) c) as [<-|Hne]; [|reflexivity].
    cbn [map]. apply extendCategory_step.
Qed.

Lemma processComponent_category E input r :
  processComponent E input = Ok r -> r_category r = cfg_category (in_config input).
Proof.
  intros H. destruct (processComponent_entry E input r H) as [g [Hr _]].
  cbv zeta in Hr. rewrite Hr. reflexivity.
Qed.

Lemma names_in_category E variantConstants storyExamples cache configs rs c :
  Forall2 (unitOk E variantConstants storyExamples cache) configs rs ->
  resultNamesIn c rs = configNamesIn c configs.
Proof.
  unfold resultNamesIn, configNamesIn.
  induction 1 as [|config r configs rs Hr _ IH]; cbn [filter]; [reflexivity|].
  rewrite (processComponent_category _ _ _ Hr). cbn [in_config].
  destruct (String.eqb (cfg_category config) c); cbn [map]; rewrite IH; [|reflexivity].
  f_equal. apply (processComponent_name _ _ _ Hr).
Qed.

(** X11: when the units return, the byCategory index maps each category to
    the names of its components followed by those of its blocks, in
    discovery order (it is not sorted); a category without members is
    absent, except that a styled InputArea creates an empty Input category
    when no member has that category. *)
Theorem byCategory_in_discovery_order E storyExamples crs brs :
  loadDemoExamples E = Ok storyExamples ->
  Forall2 (unitOk E (buildVariantConstants E (discoverComponents E ++ discoverBlocks E))
                  storyExamples (loadCache E))
          (discoverComponents E) crs ->
  Forall2 (unitOk E (buildVariantConstants E (discoverComponents E ++ discoverBlocks E))
                  storyExamples (loadCache E))
          (discoverBlocks E) brs ->
  exists g,
    generateRegistry E = Ok g /\
    forall category,
      obj_get category (byCategory (search (registry g)))
      = match configNamesIn category (discoverComponents E ++ discoverBlocks E) with
        | [] => if String.eqb category "Input" && inputAreaStyled E
                then Some [] else None
        | names => Some names
        end.
Proof.
  intros Hdemo Hcs Hbs.
  destruct (generateRegistry_tables E storyExamples crs brs Hdemo Hcs Hbs)
    as [t [Ht Hg]].
  eexists. split; [exact Hg|]. intros category.
  cbn [registry search byCategory].
  assert (Hcat : forall c,
             obj_get c (t_byCategory t)
             = extendCategory None
                 (configNamesIn c (discoverComponents E ++ discoverBlocks E))).
  { intros c. rewrite (addBlockResults_byCategory _ _ _ c _ _ Ht).
    rewrite addComponentResults_byCategory. cbn [emptyTables t_byCategory obj_get].
    rewrite (names_in_category _ _ _ _ _ _ c Hcs), (names_in_category _ _ _ _ _ _ c Hbs).
    unfold configNamesIn. rewrite filter_app, map_app.
    destruct (map cfg_name (filter _ (discoverComponents E))) as [|n ns];
      destruct (map cfg_name (filter _ (discoverBlocks E))) as [|m ms];
      rewrite ?app_nil_r; reflexivity. }
  unfold addInputArea, inputAreaStyled.
  destruct (obj_get "InputArea" (COMPONENT_STYLING_METADATA E)) as [styling|];
    [destruct (json_truthy styling)|]; cbn [t_byCategory];
    rewrite ?andb_false_r, ?andb_true_r.
  - destruct (obj_get "Input" (t_byCategory t)) as [names|] eqn:Hinput.
    + rewrite Hcat. destruct (String.eqb_spec category "Input") as [->|Hne].
      * rewrite Hcat in Hinput.
        destruct (configNamesIn "Input" _); [discriminate | reflexivity].
      * destruct (configNamesIn category _); reflexivity.
    + rewrite obj_get_set. destruct (String.eqb_spec category "Input") as [->|Hne].
      * rewrite Hcat in Hinput.
        destruct (configNamesIn "Input" _); [reflexivity | discriminate].
      * rewrite Hcat. destruct (configNamesIn category _); reflexivity.
  - rewrite Hcat. destruct (configNamesIn category _); reflexivity.
  - rewrite Hcat. destruct (configNamesIn category _); reflexivity.
Qed.

Lemma addBlockResults_tables E BLOCKS brs :
  forall t t',
    addBlockResults E BLOCKS t brs = Ok t' ->
    t_components t' = t_components t /\
    component (t_byType t') = component (t_byType t) /\
    block (t_byType t') = block (t_byType t) ++ map r_name brs /\
    (forall name,
        obj_has name (t_blocks t') = true <->
        obj_has name (t_blocks t) = true \/ In name (map r_name brs)) /\
    (forall name b,
        obj_get name (t_blocks t') = Some b ->
        obj_get name (t_blocks t) = Some b \/
        (cs_type (b_schema b) = "block" /\
         exists blockConfig,
           find (fun c => String.eqb (cfg_name c) name) BLOCKS = Some blockConfig /\
           b_files b = getBlockFiles E (cfg_sourceDir blockConfig) (cfg_dirName blockConfig) /\
           b_dependencies b
           = extractBlockDependencies E
               (join (cfg_sourceDir blockConfig) (cfg_sourceFile blockConfig)))).
Proof.
  induction brs as [|r brs IH]; intros t t' H; cbn [addBlockResults] in H.
  - injection H as <-. rewrite app_nil_r.
    repeat split; auto. intros [Hl | []]. exact Hl.
  - inv_bind H. rename x into t1.
    destruct (IH _ _ H) as [Hc [Hbc [Hbb [Hkeys Hentries]]]].
    unfold addBlockResult in Hx.
    destruct (find _ BLOCKS) as [blockConfig|] eqn:Hfind; [|discriminate].
    injection Hx as <-. cbn [t_components t_byType t_blocks component block] in *.
    split; [exact Hc|]. split; [exact Hbc|].
    split; [rewrite Hbb, <- app_assoc; reflexivity|].
    split.
    + intros name. rewrite Hkeys, obj_has_set, orb_true_iff, String.eqb_eq. cbn [map In].
      split; [intros [[-> | Hl] | Hr] | intros [Hl | [-> | Hr]]]; auto.
    + intros name b Hget. destruct (Hentries _ _ Hget) as [Hold | Hnew]; [|right; exact Hnew].
      rewrite obj_get_set in Hold.
      destruct (String.eqb_spec name (r_name r)) as [->|Hne]; [|left; exact Hold].
      injection Hold as <-. right. cbn [b_schema b_files b_dependencies].
      split; [reflexivity|]. exists blockConfig. auto.
Qed.

(** X12: when the units return, byType.component and byType.block list the
    names of the discovered components and of the discovered blocks in
    discovery order; only byName is sorted. *)
Theorem byType_in_discovery_order E storyExamples crs brs :
  loadDemoExamples E = Ok storyExamples ->
  Forall2 (unitOk E (buildVariantConstants E (discoverComponents E ++ discoverBlocks E))
                  storyExamples (loadCache E))
          (discoverComponents E) crs ->
  Forall2 (unitOk E (buildVariantConstants E (discoverComponents E ++ discoverBlocks E))
                  storyExamples (loadCache E))
          (discoverBlocks E) brs ->
  exists g,
    generateRegistry E = Ok g /\
    component (byType (search (registry g))) = map cfg_name (discoverComponents E) /\
    block (byType (search (registry g))) = map cfg_name (discoverBlocks E).
Proof.
  intros Hdemo Hcs Hbs.
  destruct (generateRegistry_tables E storyExamples crs brs Hdemo Hcs Hbs)
    as [t [Ht Hg]].
  eexists. split; [exact Hg|]. cbn [registry search byType].
  destruct (addBlockResults_tables _ _ _ _ _ Ht) as [_ [Hbc [Hbb _]]].
  destruct (addComponentResults_tables crs (emptyTables E)) as [_ [Hcc [Hcb _]]].
  cbv zeta in Hcc, Hcb.
  assert (Hsame : t_byType (addInputArea E t) = t_byType t).
  { unfold addInputArea. destruct (obj_get _ _) as [styling|]; [|reflexivity].
    destruct (json_truthy styling); reflexivity. }
  rewrite Hsame, Hbc, Hbb, Hcc, Hcb. cbn [emptyTables t_byType component block app].
  rewrite (names_of_results _ _ _ _ _ _ Hcs), (names_of_results _ _ _ _ _ _ Hbs).
  split; reflexivity.
Qed.

Lemma byType_in_discovery_order_witness :
  exists g,
    generateRegistry registryEnv = Ok g /\
    component (byType (search (registry g))) = ["Widget"; "Choice"] /\
    block (byType (search (registry g))) = ["Table"].
Proof.
  apply (byType_in_discovery_order registryEnv [] componentResults blockResults).
  - reflexivity.
  - unfold componentResults. simpl discoverComponents.
    repeat (constructor; [vm_compute; reflexivity|]). constructor.
  - unfold blockResults. simpl discoverBlocks.
    repeat (constructor; [vm_compute; reflexivity|]). constructor.
Defined.

Lemma byCategory_in_discovery_order_witness :
  exists g,
    generateRegistry registryEnv = Ok g /\
    obj_get "Other" (byCategory (search (registry g)))
    = Some ["Widget"; "Choice"; "Table"] /\
    obj_get "Input" (byCategory (search (registry g))) = Some [] /\
    obj_get "Layout" (byCategory (search (registry g))) = None.
Proof.
  destruct (byCategory_in_discovery_order registryEnv [] componentResults blockResults)
    as [g [Hg Hcat]].
  - reflexivity.
  - unfold componentResults. simpl discoverComponents.
    repeat (constructor; [vm_compute; reflexivity|]). constructor.
  - unfold blockResults. simpl discoverBlocks.
    repeat (constructor; [vm_compute; reflexivity|]). constructor.
  - exists g. split; [exact Hg|].
    split; [exact (Hcat "Other")|]. split; [exact (Hcat "Input") | exact (Hcat "Layout")].
Defined.

(** X13: when the units return, the blocks map has exactly the discovered
    blocks' names as keys, and every entry has type "block" and carries the
    files and the dependencies computed from the first discovered block of
    that name. *)
Theorem blocks_map_entries E storyExamples crs brs :
  loadDemoExamples E = Ok storyExamples ->
  Forall2 (unitOk E (buildVariantConstants E (discoverComponents E ++ discoverBlocks E))
                  storyExamples (loadCache E))
          (discoverComponents E) crs ->
  Forall2 (unitOk E (buildVariantConstants E (discoverComponents E ++ discoverBlocks E))
                  storyExamples (loadCache E))
          (discoverBlocks E) brs ->
  exists g,
    generateRegistry E = Ok g /\
    (forall name,
        obj_has name (blocks (registry g)) = true <->
        In name (map cfg_name (discoverBlocks E))) /\
    (forall name b,
        obj_get name (blocks (registry g)) = Some b ->
        cs_type (b_schema b) = "block" /\
        exists blockConfig,
          find (fun c => String.eqb (cfg_name c) name) (discoverBlocks E)
          = Some blockConfig /\
          b_files b = getBlockFiles E (cfg_sourceDir blockConfig) (cfg_dirName blockConfig) /\
          b_dependencies b
          = extractBlockDependencies E
              (join (cfg_sourceDir blockConfig) (cfg_sourceFile blockConfig))).
Proof.
  intros Hdemo Hcs Hbs.
  destruct (generateRegistry_tables E storyExamples crs brs Hdemo Hcs Hbs)
    as [t [Ht Hg]].
  eexists. split; [exact Hg|]. cbn [registry blocks].
  destruct (addBlockResults_tables _ _ _ _ _ Ht) as [_ [_ [_ [Hkeys Hentries]]]].
  destruct (addComponentResults_tables crs (emptyTables E)) as [Hblocks _].
  cbv zeta in Hblocks.
  assert (Hsame : t_blocks (addInputArea E t) = t_blocks t).
  { unfold addInputArea. destruct (obj_get _ _) as [styling|]; [|reflexivity].
    destruct (json_truthy styling); reflexivity. }
  rewrite Hsame. split.
  - intros name. rewrite Hkeys, Hblocks, (names_of_results _ _ _ _ _ _ Hbs).
    cbn [emptyTables t_blocks]. rewrite obj_has_nil.
    split; [intros [Hf | Hin]; [discriminate | exact Hin] | auto].
  - intros name b Hget. destruct (Hentries _ _ Hget) as [Hold | Hnew]; [|exact Hnew].
    rewrite Hblocks in Hold. discriminate Hold.
Qed.

Lemma blocks_map_entries_witness :
  exists g table,
    generateRegistry registryEnv = Ok g /\
    obj_get "Table" (blocks (registry g)) = Some table /\
    cs_type (b_schema table) = "block".
Proof.
  destruct (blocks_map_entries registryEnv [] componentResults blockResults)
    as [g [Hg [Hkeys Hentries]]].
  - reflexivity.
  - unfold componentResults. simpl discoverComponents.
    repeat (constructor; [vm_compute; reflexivity|]). constructor.
  - unfold blockResults. simpl discoverBlocks.
    repeat (constructor; [vm_compute; reflexivity|]). constructor.
  - assert (Hhas : obj_has "Table" (blocks (registry g)) = true)
      by (apply Hkeys; left; reflexivity).
    unfold obj_has in Hhas.
    destruct (obj_get "Table" (blocks (registry g))) as [table|] eqn:Hget;
      [|discriminate Hhas].
    exists g, table. split; [exact Hg|]. split; [exact Hget|].
    exact (proj1 (Hentries "Table" table Hget)).
Defined.

Lemma addComponentResults_cache crs :
  forall t, t_newCache (fold_left addComponentResult crs t) = storeResults crs (t_newCache t).
Proof.
  induction crs as [|r crs IH]; intros t; [reflexivity|].
  cbn [fold_left]. rewrite IH. reflexivity.
Qed.

Lemma addBlockResults_cache E BLOCKS brs :
  forall t t',
    addBlockResults E BLOCKS t brs = Ok t' ->
    t_newCache t' = storeResults brs (t_newCache t).
Proof.
  induction brs as [|r brs IH]; intros t t' H; cbn [addBlockResults] in H.
  - injection H as <-. reflexivity.
  - inv_bind H. rewrite (IH _ _ H). unfold addBlockResult in Hx.
    destruct (find _ BLOCKS); [|discriminate]. injection Hx as <-. reflexivity.
Qed.

Lemma storeResults_entries rs :
  forall cache,
    cache_version (storeResults rs cache) = cache_version cache /\
    (forall name,
        obj_has name (cache_entries (storeResults rs cache)) = true <->
        obj_has name (cache_entries cache) = true \/ In name (map r_name rs)) /\
    (forall name entry,
        obj_get name (cache_entries (storeResults rs cache)) = Some entry ->
        obj_get name (cache_entries cache) = Some entry \/
        exists r, In r rs /\ r_name r = name /\ r_cacheEntry r = entry).
Proof.
  induction rs as [|r rs IH]; intros cache.
  - split; [reflexivity|]. split; [|auto].
    intros name. split; [auto | intros [Hl | []]; exact Hl].
  - change (storeResults (r :: rs) cache)
      with (storeResults rs (storeEntry (r_name r) (r_cacheEntry r) cache)).
    destruct (IH (storeEntry (r_name r) (r_cacheEntry r) cache)) as [Hv [Hkeys Hentries]].
    split; [rewrite Hv; reflexivity|]. split.
    + intros name. rewrite Hkeys. cbn [storeEntry cache_entries map In].
      rewrite obj_has_set, orb_true_iff, String.eqb_eq.
      split; [intros [[-> | Hl] | Hr] | intros [Hl | [-> | Hr]]]; auto.
    + intros name entry Hget. destruct (Hentries _ _ Hget) as [Hold | [r' [Hin Hr']]].
      * cbn [storeEntry cache_entries] in Hold. rewrite obj_get_set in Hold.
        destruct (String.eqb_spec name (r_name r)) as [->|Hne]; [|left; exact Hold].
        injection Hold as <-. right. exists r. split; [left; reflexivity | auto].
      * right. exists r'. split; [right; exact Hin | exact Hr'].
Qed.

(** X14: when the units return, the cache file handed to saveCache is a
    fresh snapshot: it has the current cache version, its keys are exactly
    the names of the discovered components and blocks (entries of the
    loaded cache for other names are not carried over), and the entry under
    a name is the cache entry of a unit of that name. *)
Theorem saved_cache_is_fresh_snapshot E storyExamples crs brs :
  loadDemoExamples E = Ok storyExamples ->
  Forall2 (unitOk E (buildVariantConstants E (discoverComponents E ++ discoverBlocks E))
                  storyExamples (loadCache E))
          (discoverComponents E) crs ->
  Forall2 (unitOk E (buildVariantConstants E (discoverComponents E ++ discoverBlocks E))
                  storyExamples (loadCache E))
          (discoverBlocks E) brs ->
  exists g,
    generateRegistry E = Ok g /\
    cache_version (savedCache g) = CACHE_VERSION E /\
    (forall name,
        obj_has name (cache_entries (savedCache g)) = true <->
        In name (map cfg_name (discoverComponents E ++ discoverBlocks E))) /\
    (forall name entry,
        obj_get name (cache_entries (savedCache g)) = Some entry ->
        exists r, In r (crs ++ brs) /\ r_name r = name /\ r_cacheEntry r = entry).
Proof.
  intros Hdemo Hcs Hbs.
  destruct (generateRegistry_tables E storyExamples crs brs Hdemo Hcs Hbs)
    as [t [Ht Hg]].
  eexists. split; [exact Hg|]. cbn [savedCache].
  rewrite (addBlockResults_cache _ _ _ _ _ Ht), addComponentResults_cache.
  cbn [emptyTables t_newCache].
  destruct (storeResults_entries crs (mkCache (CACHE_VERSION E) [])) as [Hv1 [Hk1 He1]].
  destruct (storeResults_entries brs (storeResults crs (mkCache (CACHE_VERSION E) [])))
    as [Hv2 [Hk2 He2]].
  split; [rewrite Hv2, Hv1; reflexivity|]. split.
  - intros name. rewrite Hk2, Hk1. cbn [cache_entries]. rewrite obj_has_nil.
    rewrite map_app, in_app_iff.
    rewrite (names_of_results _ _ _ _ _ _ Hcs), (names_of_results _ _ _ _ _ _ Hbs).
    split; [intros [[Hf | Hl] | Hr]; [discriminate | auto | auto] | intros [Hl | Hr]; auto].
  - intros name entry Hget.
    destruct (He2 _ _ Hget) as [Hold | [r [Hin Hr]]].
    + destruct (He1 _ _ Hold) as [Hnil | [r [Hin Hr]]]; [discriminate Hnil|].
      exists r. split; [apply in_or_app; left; exact Hin | exact Hr].
    + exists r. split; [apply in_or_app; right; exact Hin | exact Hr].
Qed.

Lemma saved_cache_is_fresh_snapshot_witness :
  exists g,
    generateRegistry registryEnv = Ok g /\
    cache_version (savedCache g) = 3%Z /\
    (obj_has "Widget" (cache_entries (savedCache g)) = true <->
     In "Widget" ["Widget"; "Choice"; "Table"]).
Proof.
  destruct (saved_cache_is_fresh_snapshot registryEnv [] componentResults blockResults)
    as [g [Hg [Hversion [Hkeys _]]]].
  - reflexivity.
  - unfold componentResults. simpl discoverComponents.
    repeat (constructor; [vm_compute; reflexivity|]). constructor.
  - unfold blockResults. simpl discoverBlocks.
    repeat (constructor; [vm_compute; reflexivity|]). constructor.
  - exists g. split; [exact Hg|]. split; [exact Hversion | exact (Hkeys "Widget")].
Defined.

(** X16: when the units return, the keys of the components map are exactly
    the names of the discovered components, plus InputArea when the styling
    table has a (truthy) entry for it; no block is among them unless it
    shares a component's name. *)
Theorem components_map_keys E storyExamples crs brs :
  loadDemoExamples E = Ok storyExamples ->
  Forall2 (unitOk E (buildVariantConstants E (discoverComponents E ++ discoverBlocks E))
                  storyExamples (loadCache E))
          (discoverComponents E) crs ->
  Forall2 (unitOk E (buildVariantConstants E (discoverComponents E ++ discoverBlocks E))
                  storyExamples (loadCache E))
          (discoverBlocks E) brs ->
  exists g,
    generateRegistry E = Ok g /\
    forall name,
      obj_has name (components (registry g)) = true <->
      In name (map cfg_name (discoverComponents E)) \/
      (name = "InputArea" /\ inputAreaStyled E = true).
Proof.
  intros Hdemo Hcs Hbs.
  destruct (generateRegistry_tables E storyExamples crs brs Hdemo Hcs Hbs)
    as [t [Ht Hg]].
  eexists. split; [exact Hg|]. cbn [registry components]. intros name.
  destruct (addBlockResults_tables _ _ _ _ _ Ht) as [Hc _].
  destruct (addComponentResults_tables crs (emptyTables E)) as [_ [_ [_ Hkeys]]].
  cbv zeta in Hkeys.
  assert (Ht_keys : obj_has name (t_components t) = true <->
                    In name (map cfg_name (discoverComponents E))).
  { rewrite Hc, Hkeys, (names_of_results _ _ _ _ _ _ Hcs).
    cbn [emptyTables t_components]. rewrite obj_has_nil.
    split; [intros [Hf | Hin]; [discriminate | exact Hin] | auto]. }
  unfold addInputArea, inputAreaStyled.
  destruct (obj_get "InputArea" (COMPONENT_STYLING_METADATA E)) as [styling|];
    [destruct (json_truthy styling)|]; cbn [t_components].
  - rewrite obj_has_set, orb_true_iff, String.eqb_eq, Ht_keys.
    split; [intros [-> | Hin] | intros [Hin | [-> _]]]; auto.
  - rewrite Ht_keys. split; [auto | intros [Hin | [_ Hf]]; [exact Hin | discriminate]].
  - rewrite Ht_keys. split; [auto | intros [Hin | [_ Hf]]; [exact Hin | discriminate]].
Qed.

Lemma components_map_keys_witness :
  exists g,
    generateRegistry registryEnv = Ok g /\
    obj_has "Widget" (components (registry g)) = true /\
    obj_has "InputArea" (components (registry g)) = true /\
    obj_has "Table" (components (registry g)) = false.
Proof.
  destruct (components_map_keys registryEnv [] componentResults blockResults)
    as [g [Hg Hkeys]].
  - reflexivity.
  - unfold componentResults. simpl discoverComponents.
    repeat (constructor; [vm_compute; reflexivity|]). constructor.
  - unfold blockResults. simpl discoverBlocks.
    repeat (constructor; [vm_compute; reflexivity|]). constructor.
  - exists g. split; [exact Hg|]. split; [|split].
    + apply Hkeys. left. left. reflexivity.
    + apply Hkeys. right. split; reflexivity.
    + destruct (obj_has "Table" (components (registry g))) eqn:Hhas; [|reflexivity].
      apply Hkeys in Hhas. exfalso.
      destruct Hhas as [[H | [H | []]] | [H _]]; discriminate H.
Defined.

(** X15: when the styling table has a (truthy) InputArea entry and a
    component named InputArea is discovered all the same, the synthetic
    schema (with empty props) replaces the discovered component's schema in
    the components map, while byName and byType.component still list the
    name. *)
Theorem synthetic_InputArea_replaces_discovered E storyExamples crs brs styling :
  loadDemoExamples E = Ok storyExamples ->
  Forall2 (unitOk E (buildVariantConstants E (discoverComponents E ++ discoverBlocks E))
                  storyExamples (loadCache E))
          (discoverComponents E) crs ->
  Forall2 (unitOk E (buildVariantConstants E (discoverComponents E ++ discoverBlocks E))
                  storyExamples (loadCache E))
          (discoverBlocks E) brs ->
  obj_get "InputArea" (COMPONENT_STYLING_METADATA E) = Some styling ->
  json_truthy styling = true ->
  In "InputArea" (map cfg_name (discoverComponents E)) ->
  exists g,
    generateRegistry E = Ok g /\
    obj_get "InputArea" (components (registry g)) = Some (syntheticInputArea styling) /\
    In "InputArea" (byName (search (registry g))) /\
    In "InputArea" (component (byType (search (registry g)))).
Proof.
  intros Hdemo Hcs Hbs Hstyling Htruthy Hdiscovered.
  destruct (generateRegistry_tables E storyExamples crs brs Hdemo Hcs Hbs)
    as [t [Ht Hg]].
  eexists. split; [exact Hg|]. cbn [registry components search byName byType].
  destruct (addBlockResults_tables _ _ _ _ _ Ht) as [_ [Hbc _]].
  destruct (addComponentResults_tables crs (emptyTables E)) as [_ [Hcc _]].
  cbv zeta in Hcc.
  unfold addInputArea. rewrite Hstyling, Htruthy. cbn [t_components t_byType].
  split; [apply obj_get_set_same|]. split.
  - eapply Permutation_in.
    + symmetry. apply (Permutation_map r_name (sortByName_perm E (crs ++ brs))).
    + rewrite map_app, (names_of_results _ _ _ _ _ _ Hcs).
      apply in_or_app. left. exact Hdiscovered.
  - rewrite Hbc, Hcc. cbn [emptyTables t_byType component app].
    rewrite (names_of_results _ _ _ _ _ _ Hcs). exact Hdiscovered.
Qed.

Lemma synthetic_InputArea_replaces_discovered_witness :
  exists g,
    generateRegistry inputAreaEnv = Ok g /\
    obj_get "InputArea" (components (registry g))
    = Some (syntheticInputArea (JObj [])) /\
    byName (search (registry g)) = ["Card"; "InputArea"].
Proof.
  destruct (synthetic_InputArea_replaces_discovered inputAreaEnv [] inputAreaResults []
              (JObj []))
    as [g [Hg [Hget [HbyName _]]]].
  - reflexivity.
  - unfold inputAreaResults. simpl discoverComponents.
    repeat (constructor; [vm_compute; reflexivity|]). constructor.
  - constructor.
  - reflexivity.
  - reflexivity.
  - left. reflexivity.
  - exists g. split; [exact Hg|]. split; [exact Hget|].
    destruct (generateRegistry_ok inputAreaEnv [] inputAreaResults []) as [g' [t [Hg' [Hn _]]]].
    + reflexivity.
    + unfold inputAreaResults. simpl discoverComponents.
      repeat (constructor; [vm_compute; reflexivity|]). constructor.
    + constructor.
    + rewrite Hg in Hg'. injection Hg' as <-. rewrite Hn. vm_compute. reflexivity.
Defined.

Lemma subComponents_never_empty_witness :
  exists r schemas,
    regenerateComponent subEnv (mkInput Tabs [] [] emptyCache)
      "/kumo/src/components/Tabs.tsx" "h1" "h2" = Ok r /\
    cs_subComponents (r_schema r) = Some schemas /\
    obj_keys schemas = ["List"; "Tab"] /\
    schemas <> [].
Proof.
  pose (r := match regenerateComponent subEnv (mkInput Tabs [] [] emptyCache)
                     "/kumo/src/components/Tabs.tsx" "h1" "h2" with
             | Ok r => r
             | _ => mkResult "" "" widgetCachedSchema [] false widgetEntry
             end).
  assert (Hr : regenerateComponent subEnv (mkInput Tabs [] [] emptyCache)
                 "/kumo/src/components/Tabs.tsx" "h1" "h2" = Ok r)
    by (vm_compute; reflexivity).
  pose proof (subComponents_never_empty subEnv _ _ _ _ r Hr) as Hsub.
  destruct (cs_subComponents (r_schema r)) as [schemas|] eqn:Hschemas.
  - exists r, schemas. split; [exact Hr|]. split; [exact Hschemas|].
    split; [|exact (proj1 Hsub)].
    vm_compute in Hschemas. injection Hschemas as <-. vm_compute. reflexivity.
  - vm_compute in Hschemas. discriminate Hschemas.
Defined.

(** ** The styles build, beyond the compile step *)

Lemma Proceeds_ret {A} (a : A) : Proceeds (ret a).
Proof. intros out. exists [], a. rewrite app_nil_r. auto. Qed.

Lemma Proceeds_emit o : isConsole o = true -> Proceeds (emit o).
Proof.
  intros Ho out. exists [o], tt. split; [reflexivity|]. cbn. rewrite Ho. reflexivity.
Qed.

Lemma Proceeds_call {A} (r : result A) a : r = Ok a -> Proceeds (call r).
Proof. intros -> out. exists [], a. rewrite app_nil_r. auto. Qed.

Lemma Proceeds_andThen {A B} (m : Script A) (k : A -> Script B) :
  Proceeds m -> (forall a, Proceeds (k a)) -> Proceeds (andThen m k).
Proof.
  intros Hm Hk out. destruct (Hm out) as [more1 [a [H1 Hc1]]].
  destruct (Hk a (out ++ more1)) as [more2 [b [H2 Hc2]]].
  exists (more1 ++ more2), b. unfold andThen. rewrite H1, H2, app_assoc.
  split; [reflexivity|]. rewrite forallb_app, Hc1, Hc2. reflexivity.
Qed.

Lemma Proceeds_forEach {A} (l : list A) (f : A -> Script unit) :
  (forall a, Proceeds (f a)) -> Proceeds (forEach l f).
Proof.
  intros Hf. induction l as [|a l IH]; cbn [forEach].
  - apply Proceeds_ret.
  - apply Proceeds_andThen; [apply Hf | intros _; exact IH].
Qed.

Lemma Proceeds_filterM {A} (f : A -> Script bool) (l : list A) :
  (forall a, Proceeds (f a)) -> Proceeds (filterM f l).
Proof.
  intros Hf. induction l as [|a l IH]; cbn [filterM].
  - apply Proceeds_ret.
  - apply Proceeds_andThen; [apply Hf|]. intros keep.
    apply Proceeds_andThen; [exact IH|]. intros rest. apply Proceeds_ret.
Qed.

Lemma ConsoleOnly_ret {A} (a : A) : ConsoleOnly (ret a).
Proof. intros out out' e [= <- _]. exists []. rewrite app_nil_r. auto. Qed.

Lemma ConsoleOnly_emit o : isConsole o = true -> ConsoleOnly (emit o).
Proof.
  intros Ho out out' e [= <- _]. exists [o]. split; [reflexivity|].
  cbn. rewrite Ho. reflexivity.
Qed.

Lemma ConsoleOnly_call {A} (r : result A) : ConsoleOnly (call r).
Proof.
  intros out out' e H. exists []. rewrite app_nil_r. split; [|reflexivity].
  unfold call in H. destruct r; injection H as <- _; reflexivity.
Qed.

Lemma ConsoleOnly_andThen {A B} (m : Script A) (k : A -> Script B) :
  ConsoleOnly m -> (forall a, ConsoleOnly (k a)) -> ConsoleOnly (andThen m k).
Proof.
  intros Hm Hk out out' e H. unfold andThen in H.
  destruct (m out) as [out1 [a | code | err]] eqn:Hm1;
    destruct (Hm _ _ _ Hm1) as [more1 [-> Hc1]].
  - destruct (Hk a _ _ _ H) as [more2 [-> Hc2]].
    exists (more1 ++ more2). rewrite app_assoc, forallb_app, Hc1, Hc2. auto.
  - injection H as <- _. exists more1. auto.
  - injection H as <- _. exists more1. auto.
Qed.

Lemma ConsoleOnly_forEach {A} (l : list A) (f : A -> Script unit) :
  (forall a, ConsoleOnly (f a)) -> ConsoleOnly (forEach l f).
Proof.
  intros Hf. induction l as [|a l IH]; cbn [forEach].
  - apply ConsoleOnly_ret.
  - apply ConsoleOnly_andThen; [apply Hf | intros _; exact IH].
Qed.

Lemma copyCssFiles_console W : ConsoleOnly (copyCssFiles W).
Proof.
  unfold copyCssFiles. apply ConsoleOnly_andThen.
  - destruct (negb _); [apply ConsoleOnly_call | apply ConsoleOnly_ret].
  - intros _. apply ConsoleOnly_forEach. intros file.
    destruct (existsSync W _).
    + apply ConsoleOnly_andThen; [apply ConsoleOnly_call|].
      intros _. apply ConsoleOnly_emit. reflexivity.
    + apply ConsoleOnly_emit. reflexivity.
Qed.

(** X18: an exception of a file-system call while the raw CSS files are
    copied is not caught by the script: it ends the run as an uncaught
    error, and the Tailwind CLI has not been invoked. *)
Theorem fs_failure_before_compile_is_uncaught W out e :
  copyCssFiles W [] = (out, Raise e) ->
  buildStyles W [] = (out, Raise e) /\
  forall command, ~ In (Exec command) out.
Proof.
  intros Hcopy. split.
  - unfold buildStyles, andThen. rewrite Hcopy. reflexivity.
  - destruct (copyCssFiles_console W _ _ _ Hcopy) as [more [-> Hconsole]].
    cbn [app]. intros command Hin.
    rewrite forallb_forall in Hconsole. apply Hconsole in Hin. discriminate Hin.
Qed.

(** X17: when no file-system call throws and the Tailwind CLI succeeds, the
    script runs to its end: it invokes the CLI once the raw CSS files are
    handled, reports the CSS build as complete, and its last line reports
    the block source files as copied. *)
Theorem styles_build_completes W :
  (forall path, mkdirSync W path = Ok tt) ->
  (forall src dst, copyFileSync W src dst = Ok tt) ->
  (forall path, exists items, readdirSync W path = Ok items) ->
  (forall path, exists stats, statSync W path = Ok stats) ->
  execSync W (tailwindCommand W) = Ok tt ->
  exists copied blocksCopied,
    buildStyles W []
    = (copied
       ++ [ConsoleLog "Compiling standalone CSS...";
           Exec (tailwindCommand W);
           ConsoleLog "Compiled kumo-standalone.css";
           ConsoleLog "CSS build complete";
           ConsoleLog "Copying block source files..."]
       ++ blocksCopied
       ++ [ConsoleLog "Block source files copied"],
       Next tt) /\
    forallb isConsole copied = true /\
    forallb isConsole blocksCopied = true.
Proof.
  intros Hmkdir Hcopy Hreaddir Hstat Hexec.
  assert (Hcss : Proceeds (copyCssFiles W)).
  { unfold copyCssFiles. apply Proceeds_andThen.
    - destruct (negb _); [eapply Proceeds_call; apply Hmkdir | apply Proceeds_ret].
    - intros _. apply Proceeds_forEach. intros file.
      destruct (existsSync W _).
      + apply Proceeds_andThen; [eapply Proceeds_call; apply Hcopy|].
        intros _. apply Proceeds_emit. reflexivity.
      + apply Proceeds_emit. reflexivity. }
  assert (Hblocks : Proceeds (copyBlockFiles W (blocksSrcDir W) (blocksDistDir W))).
  { unfold copyBlockFiles. destruct (negb _); [apply Proceeds_emit; reflexivity|].
    destruct (Hreaddir (blocksSrcDir W)) as [items Hitems].
    apply Proceeds_andThen; [eapply Proceeds_call; exact Hitems|]. intros items'.
    apply Proceeds_andThen.
    - apply Proceeds_filterM. intros item.
      destruct (Hstat (join (blocksSrcDir W) item)) as [stats Hstats].
      apply Proceeds_andThen; [eapply Proceeds_call; exact Hstats|].
      intros stats'. apply Proceeds_ret.
    - intros blockDirs. apply Proceeds_forEach. intros blockDir.
      apply Proceeds_andThen.
      + destruct (negb _); [eapply Proceeds_call; apply Hmkdir | apply Proceeds_ret].
      + intros _.
        destruct (Hreaddir (join (blocksSrcDir W) blockDir)) as [files Hfiles].
        apply Proceeds_andThen; [eapply Proceeds_call; exact Hfiles|]. intros files'.
        apply Proceeds_forEach. intros file.
        destruct (endsWith ".tsx" file); [|apply Proceeds_ret].
        destruct (Hstat (join (join (blocksSrcDir W) blockDir) file)) as [stats Hstats].
        apply Proceeds_andThen; [eapply Proceeds_call; exact Hstats|]. intros stats'.
        destruct (isFile stats'); [|apply Proceeds_ret].
        apply Proceeds_andThen; [eapply Proceeds_call; apply Hcopy|].
        intros _. apply Proceeds_emit. reflexivity. }
  destruct (Hcss []) as [copied [[] [Hrun1 Hc1]]]. cbn [app] in Hrun1.
  destruct (Hblocks (copied
                     ++ [ConsoleLog "Compiling standalone CSS...";
                         Exec (tailwindCommand W);
                         ConsoleLog "Compiled kumo-standalone.css";
                         ConsoleLog "CSS build complete";
                         ConsoleLog "Copying block source files..."]))
    as [blocksCopied [[] [Hrun2 Hc2]]].
  exists copied, blocksCopied. split; [|auto].
  unfold buildStyles. rewrite (andThen_Next _ _ _ _ _ Hrun1).
  unfold compileStandalone, andThen at 1 2 3, try_, emit, call. rewrite Hexec.
  cbn [andThen]. unfold andThen, emit.
  rewrite <- !app_assoc. cbn [app]. rewrite Hrun2.
  rewrite <- !app_assoc. reflexivity.
Qed.

Import StylesFixtures.

Lemma fs_failure_before_compile_is_uncaught_witness :
  buildStyles readOnlyWorld [] = ([], Raise "EACCES: permission denied, mkdir").
Proof.
  exact (proj1 (fs_failure_before_compile_is_uncaught readOnlyWorld []
                  "EACCES: permission denied, mkdir" eq_refl)).
Defined.

Lemma styles_build_completes_witness :
  exists out,
    buildStyles okWorld [] = (out, Next tt) /\
    last out (ConsoleLog "") = ConsoleLog "Block source files copied" /\
    In (Exec (tailwindCommand okWorld)) out.
Proof.
  destruct (styles_build_completes okWorld) as [copied [blocksCopied [Hrun _]]].
  - intros path. reflexivity.
  - intros src dst. reflexivity.
  - intros path. unfold okWorld. cbn [readdirSync].
    destruct (String.eqb path _); eexists; reflexivity.
  - intros path. eexists. reflexivity.
  - reflexivity.
  - eexists. split; [exact Hrun|]. split.
    + rewrite !app_assoc. apply last_last.
    + apply in_or_app. right. right. left. reflexivity.
Defined.

(** ** Flags *)

(** X19: the generator's flags depend only on which of its three flags
    occur after the first two entries of argv: unknown arguments are
    ignored (never rejected), and order and repetition do not matter. *)
Theorem flags_ignore_unknown_arguments argv argv' :
  (forall flag,
      In flag ["--inherited-props"; "--no-cache"; "--verbose"] ->
      (In flag (skipn 2 argv) <-> In flag (skipn 2 argv'))) ->
  parseCLIFlags argv = parseCLIFlags argv'.
Proof.
  intros Hsame. unfold parseCLIFlags. cbv zeta.
  assert (Hinc : forall flag,
             In flag ["--inherited-props"; "--no-cache"; "--verbose"] ->
             includes (skipn 2 argv) flag = includes (skipn 2 argv') flag).
  { intros flag Hflag. specialize (Hsame flag Hflag).
    destruct (includes (skipn 2 argv) flag) eqn:H1, (includes (skipn 2 argv') flag) eqn:H2;
      try reflexivity.
    - apply includes_In, Hsame, includes_In in H1. congruence.
    - apply includes_In, Hsame, includes_In in H2. congruence. }
  rewrite (Hinc "--inherited-props"), (Hinc "--no-cache"), (Hinc "--verbose");
    cbn [In]; auto.
Qed.

Lemma flags_ignore_unknown_arguments_witness :
  parseCLIFlags ["node"; "index.ts"; "--verbose"; "--frobnicate"; "--no-cache"; "--verbose"]
  = parseCLIFlags ["--verbose"; "--inherited-props"; "--no-cache"; "--verbose"].
Proof.
  apply flags_ignore_unknown_arguments.
  intros flag [<- | [<- | [<- | []]]]; cbn [skipn In]; split; intros H;
    repeat (destruct H as [H | H]; [try discriminate H; auto|]); try contradiction; auto 10.
Defined.

(** ** $ref round trip *)





(** ** Colour tokens *)

Import KumoColors.

Lemma tokensOf_sound AVAILABLE_THEMES prefix entry token :
  In token (tokensOf AVAILABLE_THEMES prefix entry) ->
  ct_name token = (prefix ++ fst entry)%string /\
  ((ct_tokenType token = semantic /\ ct_theme token = "kumo") \/
   (ct_tokenType token = override /\ ct_theme token <> "kumo" /\
    In (ct_theme token) AVAILABLE_THEMES)) /\
  exists colors,
    obj_get (ct_theme token) (td_theme (snd entry)) = Some colors /\
    ct_light token = tc_light colors /\ ct_dark token = tc_dark colors.
Proof.
  destruct entry as [tokenName typedDef]. unfold tokensOf. cbn [fst snd].
  rewrite in_app_iff, in_flat_map. intros [Hbase | [themeName [Hin Hover]]].
  - destruct (obj_get "kumo" (td_theme typedDef)) as [kumo|] eqn:Hkumo; [|destruct Hbase].
    destruct Hbase as [<- | []]. cbn. split; [reflexivity|]. split; [auto|].
    exists kumo. auto.
  - destruct (String.eqb_spec themeName "kumo") as [->|Hne]; [destruct Hover|].
    cbn [negb] in Hover.
    destruct (obj_get themeName (td_theme typedDef)) as [themeColors|] eqn:Htheme;
      [|destruct Hover].
    destruct Hover as [<- | []]. cbn. split; [reflexivity|].
    split; [right; auto|]. exists themeColors. auto.
Qed.

(** X20: every colour token of the virtual module is named after a token
    of the theme config ("--text-color-" or "--color-" and the token's
    name), carries the light and dark colours the config gives for its
    theme, and is either semantic with theme kumo or an override with
    another, available theme (never global); and every token of the config
    that has kumo colours yields its semantic entry. *)
Theorem color_tokens_follow_config THEME_CONFIG AVAILABLE_THEMES :
  (forall token,
      In token (getColorsFromConfig THEME_CONFIG AVAILABLE_THEMES) ->
      exists prefix tokenName typedDef colors,
        ((prefix = "--text-color-" /\ In (tokenName, typedDef) (tcfg_text THEME_CONFIG)) \/
         (prefix = "--color-" /\ In (tokenName, typedDef) (tcfg_color THEME_CONFIG))) /\
        ct_name token = (prefix ++ tokenName)%string /\
        obj_get (ct_theme token) (td_theme typedDef) = Some colors /\
        ct_light token = tc_light colors /\ ct_dark token = tc_dark colors /\
        ((ct_tokenType token = semantic /\ ct_theme token = "kumo") \/
         (ct_tokenType token = override /\ ct_theme token <> "kumo" /\
          In (ct_theme token) AVAILABLE_THEMES))) /\
  (forall tokenName typedDef kumo,
      obj_get "kumo" (td_theme typedDef) = Some kumo ->
      (In (tokenName, typedDef) (tcfg_text THEME_CONFIG) ->
       In (mkColorToken ("--text-color-" ++ tokenName) (tc_light kumo) (tc_dark kumo)
                        "kumo" semantic)
          (getColorsFromConfig THEME_CONFIG AVAILABLE_THEMES)) /\
      (In (tokenName, typedDef) (tcfg_color THEME_CONFIG) ->
       In (mkColorToken ("--color-" ++ tokenName) (tc_light kumo) (tc_dark kumo)
                        "kumo" semantic)
          (getColorsFromConfig THEME_CONFIG AVAILABLE_THEMES))).
Proof.
  unfold getColorsFromConfig. split.
  - intros token Hin. rewrite in_app_iff, !in_flat_map in Hin.
    destruct Hin as [[[tokenName typedDef] [Hentry Htoken]]
                    | [[tokenName typedDef] [Hentry Htoken]]];
      destruct (tokensOf_sound _ _ _ _ Htoken) as [Hname [Htype [colors [Hget [Hl Hd]]]]];
      cbn [fst snd] in *.
    + exists "--text-color-", tokenName, typedDef, colors. auto 10.
    + exists "--color-", tokenName, typedDef, colors. auto 10.
  - intros tokenName typedDef kumo Hkumo. split; intros Hentry;
      rewrite in_app_iff, !in_flat_map; [left | right];
      exists (tokenName, typedDef); (split; [exact Hentry|]);
      unfold tokensOf; rewrite Hkumo; left; reflexivity.
Qed.

(** ** More on the type-based extraction *)

Lemma tryGenerateProps_steps E config props :
  tryGenerateProps E config = Ok props ->
  props = [] \/
  exists schema all,
    convertProps E config (s_definitions schema) (c_required all) (c_properties all) []
    = Ok props.
Proof.
  unfold tryGenerateProps. intros H. inv_bind H. rename x into schema.
  unfold propsFromSchema in H.
  destruct (lookupDef (s_definitions schema) (getPropsType config)) as [mainDef|].
  - inv_bind H. inv_bind H. right. eauto.
  - injection H as <-. left. reflexivity.
Qed.

(** X9: on every path of the type-based extraction (plain object,
    intersection, union), a property that the props filter rejects is not
    emitted. *)
Theorem skipped_props_never_emitted E config props name :
  tryGenerateProps E config = Ok props ->
  shouldSkipProp E name (CLI_FLAGS E) = true ->
  obj_get name props = None.
Proof.
  intros Htry Hskip.
  assert (Hhas : obj_has name props = false).
  { destruct (tryGenerateProps_steps E config props Htry) as [-> | [schema [all Hconv]]];
      [reflexivity|].
    rewrite (convertProps_has _ _ _ _ _ _ _ name Hconv), Hskip, obj_has_nil.
    cbn [negb orb]. apply andb_false_r. }
  unfold obj_has in Hhas. destruct (obj_get name props); [discriminate | reflexivity].
Qed.

(** X24: when the props type resolves to a plain object definition (no
    allOf, anyOf or oneOf) and the extraction goes through, the emitted map
    has the names of the definition's own properties (those that the props
    filter lets through), a prop is required iff the definition's required
    list has its name, and a definition without properties gives an empty
    map. *)
Theorem plain_object_props E config schema mainDef0 mainDef props :
  createSchema E (join (cfg_sourceDir config) (getSourceFile config))
               (getPropsType config) = Ok schema ->
  lookupDef (s_definitions schema) (getPropsType config) = Some mainDef0 ->
  followRefs E (tableSize (s_definitions schema)) (s_definitions schema) mainDef0
    = Ok mainDef ->
  d_allOf mainDef = None ->
  firstSome (d_anyOf mainDef) (d_oneOf mainDef) = None ->
  tryGenerateProps E config = Ok props ->
  let own := match d_properties mainDef with Some ps => ps | None => [] end in
  let requiredNames :=
    match d_properties mainDef, d_required mainDef with
    | Some _, Some rs => rs
    | _, _ => []
    end in
  (forall name,
      obj_has name props = true <->
      obj_has name own = true /\ shouldSkipProp E name (CLI_FLAGS E) = false) /\
  (forall name p,
      obj_get name props = Some p ->
      (p_required p = Some true <-> In name requiredNames)) /\
  (d_properties mainDef = None -> props = []).
Proof.
  intros Hschema Hmain Hfollow HallOf Hunion Htry. cbv zeta.
  unfold tryGenerateProps in Htry. rewrite Hschema in Htry. cbn [bind] in Htry.
  unfold propsFromSchema in Htry. rewrite Hmain, Hfollow in Htry. cbn [bind] in Htry.
  unfold collectShape in Htry. rewrite HallOf, Hunion in Htry.
  assert (Hconv : convertProps E config (s_definitions schema)
                    (match d_properties mainDef, d_required mainDef with
                     | Some _, Some rs => rs
                     | _, _ => []
                     end)
                    (match d_properties mainDef with Some ps => ps | None => [] end) []
                  = Ok props)
    by (destruct (d_properties mainDef), (d_required mainDef); exact Htry).
  clear Htry. split; [|split].
  - intros name. rewrite (convertProps_has _ _ _ _ _ _ _ name Hconv), obj_has_nil.
    cbn [orb]. rewrite andb_true_iff, negb_true_iff. reflexivity.
  - intros name p Hget.
    destruct (convertProps_flags _ _ _ _ _ _ _ _ _ Hconv Hget) as [Hold | Hflags];
      [discriminate Hold|].
    unfold flagsOf in Hflags. rewrite <- includes_In.
    destruct (includes _ name); injection Hflags as -> _; split; auto; discriminate.
  - intros Hnone. rewrite Hnone in Hconv. cbn [convertProps] in Hconv.
    injection Hconv as <-. reflexivity.
Qed.

Lemma plain_object_props_witness :
  exists props label size,
    generatePropsFromType plainEnv Widget = Ok props /\
    obj_keys props = ["size"; "label"] /\
    obj_get "label" props = Some label /\ p_required label = Some true /\
    obj_get "size" props = Some size /\ p_required size = None.
Proof.
  destruct (plain_object_props plainEnv Widget widgetSchema
              (object widgetProperties ["label"]) (object widgetProperties ["label"])
              _ eq_refl eq_refl eq_refl eq_refl eq_refl eq_refl)
    as [_ [Hflags _]].
  eexists. eexists. eexists.
  split; [reflexivity|]. split; [reflexivity|]. split; [reflexivity|].
  split; [|split; reflexivity].
  apply (proj2 (Hflags "label" _ eq_refl)). left. reflexivity.
Defined.

Lemma skipped_props_never_emitted_witness :
  exists props,
    generatePropsFromType
      (testEnv [("RowProps",
                 mkSchema (Some [("RowProps",
                                  object [("key", typed "string"); ("gap", typed "number")]
                                         ["key"])]))]
               [] [] [] emptyCache defaultFlags)
      (componentConfig "Row" [] []) = Ok props /\
    obj_keys props = ["gap"] /\
    obj_get "key" props = None.
Proof.
  eexists. split; [reflexivity|]. split; [reflexivity|].
  apply (skipped_props_never_emitted
           (testEnv [("RowProps",
                      mkSchema (Some [("RowProps",
                                       object [("key", typed "string");
                                               ("gap", typed "number")] ["key"])]))]
                    [] [] [] emptyCache defaultFlags)
           (componentConfig "Row" [] []) _ "key" eq_refl eq_refl).
Defined.

(** ** Demo metadata *)

(** X23: a demo-metadata file that is missing leaves the build with an
    empty examples map, while one that cannot be parsed ends
    [generateRegistry] with the parse error, before any unit is
    processed. *)
Theorem demo_metadata_missing_or_corrupt E :
  (demoMetadata E = None -> loadDemoExamples E = Ok []) /\
  (forall e, demoMetadata E = Some (Throw e) -> generateRegistry E = Throw e).
Proof.
  split.
  - intros Hnone. unfold loadDemoExamples. rewrite Hnone. reflexivity.
  - intros e Hcorrupt. unfold generateRegistry, loadDemoExamples.
    rewrite Hcorrupt. reflexivity.
Qed.

(** ** Examples for the properties without a precondition *)

Lemma additional_props_injection_witness :
  exists props label href,
    injectAdditionalProps
      [("label", set_description "Visible label" (propOfType "ReactNode"));
       ("href", set_optional (propOfType "string"))]
      [("label", set_required (propOfType "string"))] = props /\
    obj_keys props = ["label"; "href"] /\
    obj_get "label" props = Some label /\
    p_type label = "ReactNode" /\ p_required label = Some true /\
    obj_get "href" props = Some href /\
    href = set_optional (propOfType "string").
Proof.
  destruct (additional_props_injection
              [("label", set_description "Visible label" (propOfType "ReactNode"));
               ("href", set_optional (propOfType "string"))]
              [("label", set_required (propOfType "string"))]) as [_ [_ Hadded]].
  eexists. eexists. eexists.
  split; [reflexivity|]. split; [reflexivity|]. split; [reflexivity|].
  split; [reflexivity|]. split; [reflexivity|]. split; [|reflexivity].
  apply Hadded.
  - repeat constructor; cbn; intuition discriminate.
  - right. left. reflexivity.
  - reflexivity.
Defined.

Lemma type_overrides_only_retype_witness :
  obj_keys (applyTypeOverrides [("icon", "IconComponent"); ("missing", "never")]
              [("label", propOfType "string"); ("icon", set_optional (propOfType "object"))])
  = ["label"; "icon"] /\
  obj_get "icon"
    (applyTypeOverrides [("icon", "IconComponent"); ("missing", "never")]
       [("label", propOfType "string"); ("icon", set_optional (propOfType "object"))])
  = Some (set_optional (propOfType "IconComponent")).
Proof.
  destruct (type_overrides_only_retype
              [("icon", "IconComponent"); ("missing", "never")]
              [("label", propOfType "string"); ("icon", set_optional (propOfType "object"))])
    as [Hkeys _].
  split; [exact Hkeys | reflexivity].
Defined.

Lemma color_tokens_follow_config_witness :
  In (mkColorToken "--color-kumo-base" "#fff" "#000" "kumo" semantic)
     (getColorsFromConfig
        (mkThemeConfig
           [("kumo-default",
             mkTokenDefinition [("kumo", mkThemeColors "#111" "#eee");
                                ("fedramp", mkThemeColors "#000" "#fff")])]
           [("kumo-base", mkTokenDefinition [("kumo", mkThemeColors "#fff" "#000")])])
        ["kumo"; "fedramp"]).
Proof.
  destruct (color_tokens_follow_config
              (mkThemeConfig
                 [("kumo-default",
                   mkTokenDefinition [("kumo", mkThemeColors "#111" "#eee");
                                      ("fedramp", mkThemeColors "#000" "#fff")])]
                 [("kumo-base", mkTokenDefinition [("kumo", mkThemeColors "#fff" "#000")])])
              ["kumo"; "fedramp"]) as [_ Hsemantic].
  apply (Hsemantic "kumo-base"
           (mkTokenDefinition [("kumo", mkThemeColors "#fff" "#000")])
           (mkThemeColors "#fff" "#000")).
  - reflexivity.
  - left. reflexivity.
Defined.
